(** * A shallow embedding of the MIDI composition engine (midi_composer.py)

    The engine turns a key, a scale, scale degrees and rhythmic patterns into
    timed note events; its event sink, the notation generator
    (lilypond_generator.py) and the genre templates (llm_interface.py) that
    use it follow.  Python integers are modelled as [Z], Python floats as
    the kernel's binary64 [float]s, Python lists as [list], [str] as [string]
    (ASCII text), and a raised exception as the [Raise] branch of [result]. *)

From Stdlib Require Import ZArith List String Ascii Bool Lia.
From Stdlib Require Import Sorting.Sorted.
From Stdlib Require Import Floats.PrimFloat.
Import ListNotations.

Open Scope Z_scope.

(** ** Exceptions and results *)

(** The exceptions the engine can raise, by their Python class: [ValueError]
    with its message, [KeyError] with the key that was not found,
    [IndexError], [ZeroDivisionError], and the [OverflowError] of an integer
    too large to become a float. *)
Inductive exn : Type :=
| ValueError (message : string)
| KeyError (key : string)
| IndexError
| ZeroDivisionError
| OverflowError.

(** The names the specification gives to the failures: an unrecognised note
    name is the [ValueError] of [note_name_to_midi], an unknown scale the
    [KeyError] of [ScaleType[name]], a missing field the [KeyError] of a
    subscript on a track descriptor. *)
Definition InvalidNoteName (name : string) : exn :=
  ValueError ("Invalid note name: " ++ name).
Definition UnknownScale (name : string) : exn := KeyError name.
Definition MissingField (field : string) : exn := KeyError field.

Inductive result (A : Type) : Type :=
| Ok (a : A)
| Raise (e : exn).

Arguments Ok {A} a.
Arguments Raise {A} e.

Definition bind {A B : Type} (r : result A) (k : A -> result B) : result B :=
  match r with
  | Ok a => k a
  | Raise e => Raise e
  end.

Notation "x <- r ;; k" := (bind r (fun x => k))
  (at level 61, r at next level, right associativity).

(** A [for] loop whose body may raise: the state is threaded through the
    elements in order and the first exception ends the loop. *)
Fixpoint for_each {A S : Type} (body : S -> A -> result S) (l : list A) (s : S)
  : result S :=
  match l with
  | [] => Ok s
  | x :: r => s' <- body s x ;; for_each body r s'
  end.

(** ** Python built-ins used by the engine *)

Module Py.

(** [range(n)]: empty when [n <= 0]. *)
Definition range (n : Z) : list Z := map Z.of_nat (seq 0 (Z.to_nat n)).

Definition len {A : Type} (l : list A) : Z := Z.of_nat (List.length l).

(** [l[i]]: a negative index counts from the end; an index outside
    [-len, len) raises [IndexError]. *)
Definition getitem (l : list Z) (i : Z) : result Z :=
  let j := if i <? 0 then i + len l else i in
  if (0 <=? j) && (j <? len l)
  then match nth_error l (Z.to_nat j) with
       | Some x => Ok x
       | None => Raise IndexError
       end
  else Raise IndexError.

(** [x in l] on integers. *)
Definition contains (x : Z) (l : list Z) : bool := existsb (Z.eqb x) l.

(** [list.sort()] on integers, as an insertion sort: on integers the result
    of a sort is determined by its being the ordered rearrangement. *)
Fixpoint insert (x : Z) (l : list Z) : list Z :=
  match l with
  | [] => [x]
  | y :: r => if x <=? y then x :: l else y :: insert x r
  end.

Definition sort (l : list Z) : list Z := fold_right insert [] l.

(** [l.index(x)] on strings; [None] when [x not in l]. *)
Fixpoint str_index (x : string) (l : list string) : option Z :=
  match l with
  | [] => None
  | y :: r => if String.eqb x y then Some 0
              else option_map Z.succ (str_index x r)
  end.

(** [d.get(k)] on a dictionary kept as an association list. *)
Fixpoint lookup {V : Type} (k : string) (d : list (string * V)) : option V :=
  match d with
  | [] => None
  | (k', v) :: r => if String.eqb k k' then Some v else lookup k r
  end.

(** [s.replace(c, '')] for a one-character [c]. *)
Fixpoint remove_char (c : ascii) (s : string) : string :=
  match s with
  | EmptyString => EmptyString
  | String a r => if Ascii.eqb a c then remove_char c r
                  else String a (remove_char c r)
  end.

(** The ASCII characters [str.strip()] removes: tab, line feed, vertical
    tab, form feed, carriage return, the four separators 28..31 and space. *)
Definition is_space (c : ascii) : bool :=
  let n := nat_of_ascii c in
  ((9 <=? n) && (n <=? 13) || (28 <=? n) && (n <=? 32))%nat.

Fixpoint lstrip (s : string) : string :=
  match s with
  | EmptyString => EmptyString
  | String a r => if is_space a then lstrip r else s
  end.

(** [rstrip] keeps a character when it is not a space or when something
    remains after it. *)
Fixpoint rstrip (s : string) : string :=
  match s with
  | EmptyString => EmptyString
  | String a r =>
      match rstrip r with
      | EmptyString => if is_space a then EmptyString
                       else String a EmptyString
      | r' => String a r'
      end
  end.

Definition strip (s : string) : string := rstrip (lstrip s).

(** [s.upper()] on ASCII text: the letters a..z move to A..Z. *)
Definition upper_char (c : ascii) : ascii :=
  let n := nat_of_ascii c in
  if ((97 <=? n) && (n <=? 122))%nat then ascii_of_nat (n - 32) else c.

Fixpoint upper (s : string) : string :=
  match s with
  | EmptyString => EmptyString
  | String a r => String (upper_char a) (upper r)
  end.

End Py.

(** ** Scale and chord tables *)

(** [class ScaleType(Enum)]: the fourteen members and their offsets.  The
    offset lists are pairwise different, so no member is an alias of
    another. *)
Module ScaleType.

Inductive t : Type :=
| MAJOR | MINOR | HARMONIC_MINOR | MELODIC_MINOR
| PENTATONIC_MAJOR | PENTATONIC_MINOR | BLUES
| DORIAN | PHRYGIAN | LYDIAN | MIXOLYDIAN | LOCRIAN
| WHOLE_TONE | CHROMATIC.

Definition value (s : t) : list Z :=
  match s with
  | MAJOR => [0; 2; 4; 5; 7; 9; 11]
  | MINOR => [0; 2; 3; 5; 7; 8; 10]
  | HARMONIC_MINOR => [0; 2; 3; 5; 7; 8; 11]
  | MELODIC_MINOR => [0; 2; 3; 5; 7; 9; 11]
  | PENTATONIC_MAJOR => [0; 2; 4; 7; 9]
  | PENTATONIC_MINOR => [0; 3; 5; 7; 10]
  | BLUES => [0; 3; 5; 6; 7; 10]
  | DORIAN => [0; 2; 3; 5; 7; 9; 10]
  | PHRYGIAN => [0; 1; 3; 5; 7; 8; 10]
  | LYDIAN => [0; 2; 4; 6; 7; 9; 11]
  | MIXOLYDIAN => [0; 2; 4; 5; 7; 9; 10]
  | LOCRIAN => [0; 1; 3; 5; 6; 8; 10]
  | WHOLE_TONE => [0; 2; 4; 6; 8; 10]
  | CHROMATIC => [0; 1; 2; 3; 4; 5; 6; 7; 8; 9; 10; 11]
  end.

Definition all : list t :=
  [MAJOR; MINOR; HARMONIC_MINOR; MELODIC_MINOR; PENTATONIC_MAJOR;
   PENTATONIC_MINOR; BLUES; DORIAN; PHRYGIAN; LYDIAN; MIXOLYDIAN; LOCRIAN;
   WHOLE_TONE; CHROMATIC].

Definition name (s : t) : string :=
  match s with
  | MAJOR => "MAJOR" | MINOR => "MINOR"
  | HARMONIC_MINOR => "HARMONIC_MINOR" | MELODIC_MINOR => "MELODIC_MINOR"
  | PENTATONIC_MAJOR => "PENTATONIC_MAJOR"
  | PENTATONIC_MINOR => "PENTATONIC_MINOR"
  | BLUES => "BLUES" | DORIAN => "DORIAN" | PHRYGIAN => "PHRYGIAN"
  | LYDIAN => "LYDIAN" | MIXOLYDIAN => "MIXOLYDIAN" | LOCRIAN => "LOCRIAN"
  | WHOLE_TONE => "WHOLE_TONE" | CHROMATIC => "CHROMATIC"
  end.

(** [ScaleType[name]]: the member of that exact name, if any. *)
Definition of_name (n : string) : option t :=
  find (fun s => String.eqb n (name s)) all.

Definition eq_dec (a b : t) : {a = b} + {a <> b}.
Proof. decide equality. Defined.

(** [==] on members is identity. *)
Definition eqb (a b : t) : bool := if eq_dec a b then true else false.

End ScaleType.

(** [class ChordQuality(Enum)]: sixteen members, pairwise different lists. *)
Module ChordQuality.

Inductive t : Type :=
| MAJOR | MINOR | DIMINISHED | AUGMENTED
| MAJOR7 | MINOR7 | DOMINANT7 | DIMINISHED7 | HALF_DIMINISHED7
| MINOR_MAJOR7 | AUGMENTED7 | SUS2 | SUS4 | ADD9 | MAJOR6 | MINOR6.

Definition value (q : t) : list Z :=
  match q with
  | MAJOR => [0; 4; 7]
  | MINOR => [0; 3; 7]
  | DIMINISHED => [0; 3; 6]
  | AUGMENTED => [0; 4; 8]
  | MAJOR7 => [0; 4; 7; 11]
  | MINOR7 => [0; 3; 7; 10]
  | DOMINANT7 => [0; 4; 7; 10]
  | DIMINISHED7 => [0; 3; 6; 9]
  | HALF_DIMINISHED7 => [0; 3; 6; 10]
  | MINOR_MAJOR7 => [0; 3; 7; 11]
  | AUGMENTED7 => [0; 4; 8; 10]
  | SUS2 => [0; 2; 7]
  | SUS4 => [0; 5; 7]
  | ADD9 => [0; 4; 7; 14]
  | MAJOR6 => [0; 4; 7; 9]
  | MINOR6 => [0; 3; 7; 9]
  end.

End ChordQuality.

(** ** Notes and tracks *)

(** [0 <= note <= 127] *)
Definition in_midi_range (note : Z) : bool := (0 <=? note) && (note <=? 127).

(** [max(0, min(127, x))] *)
Definition clamp_midi (x : Z) : Z := Z.max 0 (Z.min 127 x).

Record Note : Type := {
  pitch : Z;
  start_time : float;
  duration : float;
  velocity : Z
}.

(** [Note.__post_init__] *)
Definition Note_post_init (n : Note) : Note :=
  {| pitch := clamp_midi (pitch n);
     start_time := start_time n;
     duration := duration n;
     velocity := clamp_midi (velocity n) |}.

(** [Note(pitch=..., start_time=..., duration=..., velocity=...)]: the
    generated initialiser stores the fields and then runs [__post_init__]. *)
Definition new_Note (p : Z) (start dur : float) (vel : Z) : Note :=
  Note_post_init
    {| pitch := p; start_time := start; duration := dur; velocity := vel |}.

Record Track : Type := {
  name : string;
  channel : Z;
  notes : list Note;
  program : Z
}.

(** [track.program = p] *)
Definition set_program (t : Track) (p : Z) : Track :=
  {| name := name t; channel := channel t; notes := notes t; program := p |}.

(** A positive integer of at most 53 bits as a float: every step is exact. *)
Fixpoint float_of_pos (p : positive) : float :=
  match p with
  | xH => 1%float
  | xO q => (2 * float_of_pos q)%float
  | xI q => (2 * float_of_pos q + 1)%float
  end.

(** The float nearest to an integer, ties to the even significand, as Python
    converts an integer within the float range: the 53 leading bits are
    rounded once and scaled back by a power of two.  The conversion itself
    is [int_to_float], which raises beyond the range. *)
Definition float_of_Z (z : Z) : float :=
  let a := Z.abs z in
  let shift := Z.max 0 (Z.log2 a + 1 - 53) in
  let q := Z.shiftr a shift in
  let rest := a - Z.shiftl q shift in
  let half := Z.shiftl 1 (shift - 1) in
  let q :=
    if (half <? rest) || ((0 <? shift) && (half =? rest) && Z.odd q)
    then q + 1 else q in
  let significand :=
    match q with
    | Zpos p => float_of_pos p
    | _ => 0%float
    end in
  let f := Z.iter shift (fun x => (2 * x)%float) significand in
  if z <? 0 then (- f)%float else f.

(** The least magnitude that rounds beyond the largest float:
    2^1024 - 2^970, half a step above (2^53 - 1) * 2^971. *)
Definition float_overflow_threshold : Z := 2 ^ 1024 - 2 ^ 970.

(** [float(i)], as Python applies it to the integer operand of a mixed
    sum: [OverflowError] when the integer rounds beyond the float range. *)
Definition int_to_float (i : Z) : result float :=
  if float_overflow_threshold <=? Z.abs i then Raise OverflowError
  else Ok (float_of_Z i).

(** [i + x] and [i * x] for an integer [i] and a float [x]. *)
Definition int_add_float (i : Z) (x : float) : result float :=
  f <- int_to_float i ;;
  Ok (f + x)%float.

Definition int_mul_float (i : Z) (x : float) : result float :=
  f <- int_to_float i ;;
  Ok (f * x)%float.

(** ** The composition engine *)

Record MIDIComposer : Type := {
  tempo : Z;
  time_signature : list Z;
  tracks : list Track
}.

(** [MIDIComposer(tempo, time_signature)] *)
Definition new_MIDIComposer (tempo : Z) (time_signature : list Z)
  : MIDIComposer :=
  {| tempo := tempo; time_signature := time_signature; tracks := [] |}.

Definition INSTRUMENTS : list (string * Z) :=
  [("acoustic_grand_piano", 0); ("bright_acoustic_piano", 1);
   ("electric_grand_piano", 2); ("electric_piano", 4); ("rhodes", 4);
   ("wurlitzer", 5); ("vibraphone", 11); ("marimba", 12); ("xylophone", 13);
   ("drawbar_organ", 16); ("hammond", 16); ("rock_organ", 18);
   ("acoustic_guitar_nylon", 24); ("acoustic_guitar_steel", 25);
   ("electric_guitar_jazz", 26); ("electric_guitar_clean", 27);
   ("electric_guitar_muted", 28); ("acoustic_bass", 32);
   ("electric_bass_finger", 33); ("electric_bass_pick", 34);
   ("fretless_bass", 35); ("slap_bass", 36); ("synth_bass_1", 38);
   ("synth_bass_2", 39); ("violin", 40); ("viola", 41); ("cello", 42);
   ("contrabass", 43); ("string_ensemble", 48); ("choir_aahs", 52);
   ("voice_oohs", 53); ("trumpet", 56); ("trombone", 57); ("tuba", 58);
   ("french_horn", 60); ("brass_section", 61); ("soprano_sax", 64);
   ("alto_sax", 65); ("tenor_sax", 66); ("baritone_sax", 67);
   ("clarinet", 71); ("synth_lead_square", 80); ("synth_lead_sawtooth", 81);
   ("synth_lead_calliope", 82); ("synth_pad_new_age", 88);
   ("synth_pad_warm", 89); ("synth_pad_polysynth", 90);
   ("synth_pad_choir", 91); ("synth_pad_bowed", 92);
   ("synth_pad_metallic", 93)]%string.

(** [INSTRUMENTS[key]] *)
Definition INSTRUMENTS_item (key : string) : result Z :=
  match Py.lookup key INSTRUMENTS with
  | Some p => Ok p
  | None => Raise (KeyError key)
  end.

Definition NOTE_NAMES : list string :=
  ["C"; "C#"; "D"; "D#"; "E"; "F"; "F#"; "G"; "G#"; "A"; "A#"; "B"]%string.

Definition flat_map_names : list (string * string) :=
  [("DB", "C#"); ("EB", "D#"); ("GB", "F#"); ("AB", "G#"); ("BB", "A#")]%string.

(** [note_name_to_midi]: the lowercase letter m is deleted, the name is
    stripped and upper-cased, a flat spelling is replaced by its sharp, and a
    name outside [NOTE_NAMES] raises [ValueError]. *)
Definition normalize_note_name (note_name : string) : string :=
  let note_name := Py.upper (Py.strip (Py.remove_char "m"%char note_name)) in
  match Py.lookup note_name flat_map_names with
  | Some sharp => sharp
  | None => note_name
  end.

Definition note_name_to_midi (note_name : string) (octave : Z) : result Z :=
  let note_name := normalize_note_name note_name in
  match Py.str_index note_name NOTE_NAMES with
  | None => Raise (InvalidNoteName note_name)
  | Some note_index =>
      let midi_number := (octave + 1) * 12 + note_index in
      Ok (clamp_midi midi_number)
  end.

(** [get_scale_notes]: the two nested loops, appending each in-range note. *)
Definition get_scale_notes (root : Z) (scale_type : ScaleType.t) (octaves : Z)
  : list Z :=
  fold_left
    (fun notes octave =>
       fold_left
         (fun notes interval =>
            let note := root + octave * 12 + interval in
            if in_midi_range note then notes ++ [note] else notes)
         (ScaleType.value scale_type) notes)
    (Py.range octaves) [].

(** One pass of the inversion loop: [intervals[0] += 12; intervals.sort()].
    The offsets of a chord quality are never empty and a pass keeps their
    number (see [invert_length]), so the subscript cannot fail. *)
Definition invert_once (intervals : list Z) : list Z :=
  match intervals with
  | [] => []
  | lowest :: rest => Py.sort (lowest + 12 :: rest)
  end.

Definition invert (inversion : Z) (intervals : list Z) : list Z :=
  if inversion >? 0
  then fold_left (fun iv _ => invert_once iv) (Py.range inversion) intervals
  else intervals.

Definition create_chord (root : Z) (quality : ChordQuality.t)
    (inversion : Z) (octave_doubling : bool) : list Z :=
  let intervals := invert inversion (ChordQuality.value quality) in
  let chord := map (fun interval => root + interval) intervals in
  let chord :=
    match chord with
    | first :: _ => if octave_doubling then chord ++ [first + 12] else chord
    | [] => chord
    end in
  filter in_midi_range chord.

(** The quality chosen for a degree in [create_chord_progression]
    (lines 149-158); [scale_is_major] is [scale_type == ScaleType.MAJOR]. *)
Definition harmonize_degree (degree : Z) (scale_is_major : bool)
  : ChordQuality.t :=
  if scale_is_major then
    if Py.contains degree [1; 4; 5] then ChordQuality.MAJOR
    else if Py.contains degree [2; 3; 6] then ChordQuality.MINOR
    else if degree =? 7 then ChordQuality.DIMINISHED
    else ChordQuality.MAJOR
  else
    if Py.contains degree [3; 6; 7] then ChordQuality.MAJOR
    else if Py.contains degree [1; 4; 5] then ChordQuality.MINOR
    else if degree =? 2 then ChordQuality.DIMINISHED
    else ChordQuality.MINOR.

(** [scale_notes[degree - 1] if degree <= len(scale_notes) else root] *)
Definition chord_root (root : Z) (scale_notes : list Z) (degree : Z)
  : result Z :=
  if degree <=? Py.len scale_notes
  then Py.getitem scale_notes (degree - 1)
  else Ok root.

(** The value of the local [chord] in one pass of the progression loop. *)
Definition chord_of_degree (root : Z) (scale_type : ScaleType.t)
    (scale_notes : list Z) (degree : Z) : result (list Z) :=
  chord_root <- chord_root root scale_notes degree ;;
  let quality :=
    harmonize_degree degree (ScaleType.eqb scale_type ScaleType.MAJOR) in
  Ok (create_chord chord_root quality 0 false).

(** The loops of the builders carry the pair [(notes, current_time)]. *)
Definition cursor : Type := (list Note * float)%type.

Definition progression_body (root : Z) (scale_type : ScaleType.t)
    (scale_notes : list Z) (duration_per_chord : float)
    (st : cursor) (degree : Z) : result cursor :=
  let '(notes, current_time) := st in
  chord <- chord_of_degree root scale_type scale_notes degree ;;
  let notes :=
    fold_left
      (fun notes pitch =>
         notes ++ [new_Note pitch current_time duration_per_chord 70])
      chord notes in
  Ok (notes, (current_time + duration_per_chord)%float).

Definition progression_loop (root : Z) (scale_type : ScaleType.t)
    (progression : list Z) (duration_per_chord : float) : result cursor :=
  let scale_notes := get_scale_notes root scale_type 3 in
  for_each (progression_body root scale_type scale_notes duration_per_chord)
    progression ([], 0%float).

Definition create_chord_progression (root : Z) (scale_type : ScaleType.t)
    (progression : list Z) (duration_per_chord : float) : result Track :=
  st <- progression_loop root scale_type progression duration_per_chord ;;
  program <- INSTRUMENTS_item "electric_piano" ;;
  Ok {| name := "Chord Progression"; channel := 0; notes := fst st;
        program := program |}.

(** [a % b] and [a // b] on integers: floor division, and
    [ZeroDivisionError] for a zero divisor. *)
Definition py_mod (a b : Z) : result Z :=
  if b =? 0 then Raise ZeroDivisionError else Ok (a mod b).

Definition py_floordiv (a b : Z) : result Z :=
  if b =? 0 then Raise ZeroDivisionError else Ok (a / b).

Definition melody_body (scale_notes : list Z) (st : cursor)
    (step : Z * float * float) : result cursor :=
  let '(notes, current_time) := st in
  let '(degree, duration, rest) := step in
  notes <-
    (if degree >? 0 then
       note_index <- py_mod (degree - 1) (Py.len scale_notes) ;;
       octaves_up <- py_floordiv (degree - 1) (Py.len scale_notes) ;;
       let octave_offset := octaves_up * 12 in
       scale_note <- Py.getitem scale_notes note_index ;;
       let pitch := scale_note + octave_offset in
       Ok (notes ++ [new_Note pitch current_time duration 85])
     else Ok notes) ;;
  Ok (notes, (current_time + (duration + rest))%float).

Definition melody_loop (root : Z) (scale_type : ScaleType.t)
    (pattern : list (Z * float * float)) : result cursor :=
  let scale_notes := get_scale_notes root scale_type 3 in
  for_each (melody_body scale_notes) pattern ([], 0%float).

Definition create_melody (root : Z) (scale_type : ScaleType.t)
    (pattern : list (Z * float * float)) (start_octave : Z) : result Track :=
  st <- melody_loop root scale_type pattern ;;
  program <- INSTRUMENTS_item "synth_lead_sawtooth" ;;
  Ok {| name := "Melody"; channel := 1; notes := fst st;
        program := program |}.

Definition bass_body (bass_notes : list Z) (st : cursor) (step : Z * float)
  : result cursor :=
  let '(notes, current_time) := st in
  let '(degree, duration) := step in
  notes <-
    (if (degree >? 0) && (degree <=? Py.len bass_notes) then
       pitch <- Py.getitem bass_notes (degree - 1) ;;
       Ok (notes ++ [new_Note pitch current_time duration 90])
     else Ok notes) ;;
  Ok (notes, (current_time + duration)%float).

Definition create_bass_line (root : Z) (scale_type : ScaleType.t)
    (pattern : list (Z * float)) (octave : Z) : result Track :=
  let scale_notes := get_scale_notes root scale_type 2 in
  let bass_notes :=
    map (fun note => note - 24)
        (filter (fun note => note - 24 >=? 0) scale_notes) in
  st <- for_each (bass_body bass_notes) pattern ([], 0%float) ;;
  program <- INSTRUMENTS_item "electric_bass_finger" ;;
  Ok {| name := "Bass"; channel := 2; notes := fst st; program := program |}.

Definition DRUM_MAP : list (string * Z) :=
  [("kick", 36); ("snare", 38); ("closed_hihat", 42); ("open_hihat", 46);
   ("crash", 49); ("ride", 51); ("tom_high", 48); ("tom_mid", 47);
   ("tom_low", 45)]%string.

(** The loops of [create_drum_pattern], innermost first.  The pattern is a
    dictionary, kept as the list of its items in insertion order, with hit
    times that are floats, as it is annotated.  0.1 is read as the nearest
    binary64 value, as Python reads it.  The sum [offset + hit_time]
    converts the integer offset to a float and can raise
    [OverflowError]. *)
Definition drum_hit_body (pitch offset : Z) (notes : list Note)
    (hit_time : float) : result (list Note) :=
  start <- int_add_float offset hit_time ;;
  Ok (notes ++ [new_Note pitch start 0x1.999999999999ap-4%float 95]).

Definition drum_item_body (offset : Z) (notes : list Note)
    (item : string * list float) : result (list Note) :=
  let '(drum, hits) := item in
  match Py.lookup drum DRUM_MAP with
  | Some pitch => for_each (drum_hit_body pitch offset) hits notes
  | None => Ok notes
  end.

Definition drum_measure_body (beats_per_measure : Z)
    (pattern : list (string * list float)) (notes : list Note) (measure : Z)
  : result (list Note) :=
  let offset := measure * beats_per_measure in
  for_each (drum_item_body offset) pattern notes.

Definition create_drum_pattern (self : MIDIComposer)
    (pattern : list (string * list float)) (measures : Z) : result Track :=
  beats_per_measure <- Py.getitem (time_signature self) 0 ;;
  notes <- for_each (drum_measure_body beats_per_measure pattern)
             (Py.range measures) [] ;;
  Ok {| name := "Drums"; channel := 9; notes := notes; program := 0 |}.

(** [add_track] *)
Definition add_track (self : MIDIComposer) (track : Track) : MIDIComposer :=
  {| tempo := tempo self; time_signature := time_signature self;
     tracks := tracks self ++ [track] |}.

(** ** The declarative loader *)

(** A track descriptor of the parsed document, by its [type] tag; the fields
    carry the types the annotations of the selected builder give them, and a
    field that may be absent is an [option].  [OtherTrack] is a descriptor
    whose tag is none of the four (or is absent). *)
Inductive track_spec : Type :=
| ChordProgressionTrack (progression : option (list Z))
    (duration_per_chord : option float) (instrument : option string)
| MelodyTrack (pattern : option (list (Z * float * float)))
    (octave : option Z) (instrument : option string)
| BassTrack (pattern : option (list (Z * float)))
    (octave : option Z) (instrument : option string)
| DrumsTrack (pattern : option (list (string * list float)))
    (measures : option Z)
| OtherTrack.

(** The document [json.loads] returns, field by field. *)
Record composition_spec : Type := {
  spec_tempo : option Z;
  spec_time_signature : option (list Z);
  spec_key : option string;
  spec_octave : option Z;
  spec_scale : option string;
  spec_tracks : option (list track_spec)
}.

(** [d.get(key, default)] *)
Definition get {A : Type} (field : option A) (default : A) : A :=
  match field with
  | Some v => v
  | None => default
  end.

(** [d[key]] *)
Definition item {A : Type} (field : option A) (key : string) : result A :=
  match field with
  | Some v => Ok v
  | None => Raise (MissingField key)
  end.

(** [if 'instrument' in track_spec: track.program = INSTRUMENTS.get(...)] *)
Definition assign_instrument (instrument : option string)
    (fallback : string) (track : Track) : result Track :=
  match instrument with
  | Some i =>
      default <- INSTRUMENTS_item fallback ;;
      Ok (set_program track (get (Py.lookup i INSTRUMENTS) default))
  | None => Ok track
  end.

(** One pass of the loop over the descriptors: the track to append, if any. *)
Definition build_track (composer : MIDIComposer) (root : Z)
    (scale_type : ScaleType.t) (ts : track_spec) : result (option Track) :=
  match ts with
  | ChordProgressionTrack progression duration_per_chord instrument =>
      progression <- item progression "progression" ;;
      track <- create_chord_progression root scale_type progression
                 (get duration_per_chord 4%float) ;;
      track <- assign_instrument instrument "electric_piano" track ;;
      Ok (Some track)
  | MelodyTrack pattern octave instrument =>
      pattern <- item pattern "pattern" ;;
      track <- create_melody root scale_type pattern (get octave 5) ;;
      track <- assign_instrument instrument "synth_lead_sawtooth" track ;;
      Ok (Some track)
  | BassTrack pattern octave instrument =>
      pattern <- item pattern "pattern" ;;
      track <- create_bass_line root scale_type pattern (get octave 2) ;;
      track <- assign_instrument instrument "electric_bass_finger" track ;;
      Ok (Some track)
  | DrumsTrack pattern measures =>
      pattern <- item pattern "pattern" ;;
      track <- create_drum_pattern composer pattern (get measures 4) ;;
      Ok (Some track)
  | OtherTrack => Ok None
  end.

(** How a run of the loader ends: it returns the composer, or an exception
    leaves it; [Aborted] records the local composer at that moment, which
    the caller never receives. *)
Inductive outcome : Type :=
| Returned (composer : MIDIComposer)
| Aborted (e : exn) (composer : MIDIComposer).

Fixpoint load_tracks (root : Z) (scale_type : ScaleType.t)
    (specs : list track_spec) (composer : MIDIComposer) : outcome :=
  match specs with
  | [] => Returned composer
  | ts :: rest =>
      match build_track composer root scale_type ts with
      | Raise e => Aborted e composer
      | Ok None => load_tracks root scale_type rest composer
      | Ok (Some track) =>
          load_tracks root scale_type rest (add_track composer track)
      end
  end.

(** [create_from_json] on the parsed document. *)
Definition run_create_from_json (data : composition_spec) : outcome :=
  let composer :=
    new_MIDIComposer (get (spec_tempo data) 120)
                     (get (spec_time_signature data) [4; 4]) in
  let key_name := get (spec_key data) "C"%string in
  let octave := get (spec_octave data) 4 in
  match note_name_to_midi key_name octave with
  | Raise e => Aborted e composer
  | Ok root =>
      let scale_name := get (spec_scale data) "MAJOR"%string in
      match ScaleType.of_name scale_name with
      | None => Aborted (UnknownScale scale_name) composer
      | Some scale_type =>
          load_tracks root scale_type (get (spec_tracks data) []) composer
      end
  end.

Definition create_from_json (data : composition_spec) : result MIDIComposer :=
  match run_create_from_json data with
  | Returned composer => Ok composer
  | Aborted e _ => Raise e
  end.

(** ** Auxiliary definitions for the proofs *)

(** The notes one octave contributes, before the range test. *)
Definition octave_notes (root : Z) (scale_type : ScaleType.t) (octave : Z)
  : list Z :=
  map (fun interval => root + octave * 12 + interval)
      (ScaleType.value scale_type).

(** A decision procedure for ordered lists, to settle the tables by
    evaluation. *)
Fixpoint sortedb (l : list Z) : bool :=
  match l with
  | [] => true
  | x :: r => forallb (Z.leb x) r && sortedb r
  end.

(** The offsets of a scale are ordered and lie within one octave. *)
Definition scale_offsets_ok (scale_type : ScaleType.t) : bool :=
  sortedb (ScaleType.value scale_type)
  && forallb (fun i => (0 <=? i) && (i <=? 11)) (ScaleType.value scale_type).

(** Offsets in ascending order that span at most one octave: the state of
    the inversion loop after its first pass. *)
Definition tight (l : list Z) : Prop :=
  StronglySorted Z.le l /\ forall a b, In a l -> In b l -> b <= a + 12.

Definition tightb (l : list Z) : bool :=
  sortedb l && forallb (fun a => forallb (fun b => b <=? a + 12) l) l.

(** The chords of a progression: the values the local [chord] takes in the
    successive passes of the progression loop. *)
Fixpoint progression_chords (root : Z) (scale_type : ScaleType.t)
    (scale_notes : list Z) (progression : list Z) : result (list (list Z)) :=
  match progression with
  | [] => Ok []
  | degree :: rest =>
      chord <- chord_of_degree root scale_type scale_notes degree ;;
      chords <- progression_chords root scale_type scale_notes rest ;;
      Ok (chord :: chords)
  end.

(** The notes of one chord, and the cursor after a list of chords. *)
Definition chord_notes (chord : list Z) (start dur : float) : list Note :=
  map (fun pitch => new_Note pitch start dur 70) chord.

Fixpoint lay_out (chords : list (list Z)) (dur : float) (st : cursor)
  : cursor :=
  match chords with
  | [] => st
  | chord :: rest =>
      lay_out rest dur
        (fst st ++ chord_notes chord (snd st) dur, (snd st + dur)%float)
  end.

(** ** The event sink: [export_to_midi] *)

(** The calls [export_to_midi] makes on what lies outside the engine: the
    MIDI file object of the midiutil library, the file it opens and the
    line it prints.  [close] is the exit of the [with] statement. *)
Inductive export_call : Type :=
| MIDIFile_init (numTracks : Z)
| addTrackName (track time : Z) (trackName : string)
| addTempo (track time tempo : Z)
| addProgramChange (tracknum channel time program : Z)
| addNote (track channel pitch : Z) (time duration : float) (volume : Z)
| open (filename mode : string)
| writeFile (filename : string)
| close (filename : string)
| print (line : string).

(** [enumerate(l)], counting from [i]. *)
Fixpoint enumerate_from {A : Type} (i : Z) (l : list A) : list (Z * A) :=
  match l with
  | [] => []
  | x :: r => (i, x) :: enumerate_from (i + 1) r
  end.

Section Outside.

(** The outside is not part of the engine: any of its calls may raise, and
    whether one does may depend on the calls made before it.  [E] is the
    type of its exceptions. *)
Context {E : Type}.
Variable raises : list export_call -> export_call -> option E.

(** A computation that calls the outside: from the calls made so far to the
    calls made afterwards, with the exception raised or the value
    returned. *)
Definition IO (A : Type) : Type :=
  list export_call -> list export_call * (E + A).

Definition ret {A : Type} (a : A) : IO A := fun made => (made, inr a).

Definition and_then {A B : Type} (m : IO A) (k : A -> IO B) : IO B :=
  fun made =>
    match m made with
    | (made, inr a) => k a made
    | (made, inl e) => (made, inl e)
    end.

Notation "m >> k" := (and_then m (fun _ => k))
  (at level 61, right associativity).

Definition call (c : export_call) : IO unit :=
  fun made =>
    (made ++ [c],
     match raises made c with
     | Some e => inl e
     | None => inr tt
     end).

(** [for x in l: body] *)
Fixpoint for_in {A : Type} (l : list A) (body : A -> IO unit) : IO unit :=
  match l with
  | [] => ret tt
  | x :: r => body x >> for_in r body
  end.

(** [with open(filename, mode) as f: body]: the file is closed when the body
    returns and also when it raises; the body's exception goes on unless
    closing raises one of its own. *)
Definition with_open (filename mode : string) (body : IO unit) : IO unit :=
  call (open filename mode) >>
  fun made =>
    match body made with
    | (made, inr _) => call (close filename) made
    | (made, inl e) =>
        match call (close filename) made with
        | (made, inr _) => (made, inl e)
        | (made, inl e') => (made, inl e')
        end
    end.

(** One pass of the loop over the tracks. *)
Definition export_track (tempo : Z) (entry : Z * Track) : IO unit :=
  let '(track_idx, track) := entry in
  call (addTrackName track_idx 0 (name track)) >>
  call (addTempo track_idx 0 tempo) >>
  (if negb (channel track =? 9)
   then call (addProgramChange track_idx (channel track) 0 (program track))
   else ret tt) >>
  for_in (notes track)
    (fun note =>
       call (addNote track_idx (channel track) (pitch note)
               (start_time note) (duration note) (velocity note))).

(** [export_to_midi]: run from no call made, it gives the calls it makes
    and the exception it raises or the file name it returns. *)
Definition export_to_midi (self : MIDIComposer) (filename : string)
  : IO string :=
  let num_tracks := Py.len (tracks self) in
  call (MIDIFile_init num_tracks) >>
  for_in (enumerate_from 0 (tracks self)) (export_track (tempo self)) >>
  with_open filename "wb" (call (writeFile filename)) >>
  call (print ("MIDI file saved: " ++ filename)) >>
  ret filename.

(** Making the calls of a list in order until one raises. *)
Fixpoint run (calls made : list export_call)
  : list export_call * (E + unit) :=
  match calls with
  | [] => (made, inr tt)
  | c :: rest =>
      match raises made c with
      | Some e => (made ++ [c], inl e)
      | None => run rest (made ++ [c])
      end
  end.

(** No call of the list raises when made in order after [made]. *)
Definition quiet (made calls : list export_call) : Prop :=
  forall before c rest,
    calls = before ++ c :: rest -> raises (made ++ before) c = None.

(** [c] is the first call of the list to raise, and raises [e]. *)
Definition first_raise (made calls before : list export_call)
    (c : export_call) (e : E) : Prop :=
  (exists rest, calls = before ++ c :: rest)
  /\ quiet made before
  /\ raises (made ++ before) c = Some e.

End Outside.

(** The calls of an export that nothing interrupts: those that build the
    MIDI file, track by track, and those that save it. *)
Definition export_track_calls (tempo : Z) (entry : Z * Track)
  : list export_call :=
  let '(track_idx, track) := entry in
  [addTrackName track_idx 0 (name track); addTempo track_idx 0 tempo]
  ++ (if negb (channel track =? 9)
      then [addProgramChange track_idx (channel track) 0 (program track)]
      else [])
  ++ map (fun note =>
            addNote track_idx (channel track) (pitch note)
              (start_time note) (duration note) (velocity note))
         (notes track).

Definition building_calls (self : MIDIComposer) : list export_call :=
  MIDIFile_init (Py.len (tracks self))
  :: flat_map (export_track_calls (tempo self))
       (enumerate_from 0 (tracks self)).

Definition saving_calls (filename : string) : list export_call :=
  [open filename "wb"; writeFile filename; close filename;
   print ("MIDI file saved: " ++ filename)].

Definition export_calls (self : MIDIComposer) (filename : string)
  : list export_call :=
  building_calls self ++ saving_calls filename.

(** The track a call addresses, if it addresses one. *)
Definition call_track (c : export_call) : option Z :=
  match c with
  | addTrackName t _ _ | addTempo t _ _ | addProgramChange t _ _ _
  | addNote t _ _ _ _ _ => Some t
  | _ => None
  end.

Definition is_addNote (c : export_call) : bool :=
  match c with
  | addNote _ _ _ _ _ _ => true
  | _ => false
  end.

Definition is_addProgramChange (c : export_call) : bool :=
  match c with
  | addProgramChange _ _ _ _ => true
  | _ => false
  end.

(** An outside like the midiutil library in one respect: setting a tempo of
    0 divides by zero.  Nothing else raises. *)
Definition zero_tempo_raises (made : list export_call) (c : export_call)
  : option exn :=
  match c with
  | addTempo _ _ 0 => Some ZeroDivisionError
  | _ => None
  end.

(** ** The text-notation generator (lilypond_generator.py) *)

Module LilyPondGenerator.

Definition NOTE_NAMES : list string :=
  ["c"; "cis"; "d"; "dis"; "e"; "f"; "fis"; "g"; "gis"; "a"; "ais";
   "b"]%string.

Definition DURATION_MAP : list (float * string) :=
  [(4%float, "1"); (3%float, "2."); (2%float, "2"); (1.5%float, "4.");
   (1%float, "4"); (0.75%float, "8."); (0.5%float, "8"); (0.25%float, "16");
   (0.125%float, "32")]%string.

(** [DURATION_MAP.get(duration, default)]: a key is found when it equals the
    duration as a number. *)
Definition DURATION_MAP_get (duration : float) (default : string) : string :=
  match find (fun entry => PrimFloat.eqb (fst entry) duration) DURATION_MAP
  with
  | Some entry => snd entry
  | None => default
  end.

(** [s * n] on strings: empty when [n <= 0]. *)
Definition str_repeat (s : string) (n : Z) : string :=
  String.concat "" (repeat s (Z.to_nat n)).

(** The note name with its octave marks, before the duration is appended.
    [midi_number % 12] lies in 0..11, so the subscript into [NOTE_NAMES]
    never fails. *)
Definition note_name_with_octave (midi_number : Z) : string :=
  let note_class := midi_number mod 12 in
  let octave := midi_number / 12 - 4 in
  let note_name := nth (Z.to_nat note_class) NOTE_NAMES ""%string in
  if octave >? 0 then (note_name ++ str_repeat "'" octave)%string
  else if octave <? 0 then (note_name ++ str_repeat "," (Z.abs octave))%string
  else note_name.

Definition midi_to_lilypond_note (midi_number : Z) (duration : float)
    (is_rest : bool) : string :=
  if is_rest then ("r" ++ DURATION_MAP_get duration "4")%string
  else (note_name_with_octave midi_number
        ++ DURATION_MAP_get duration "4")%string.

End LilyPondGenerator.

(** ** Genre templates and quick compositions (llm_interface.py) *)

Module MusicTheoryHelper.

Record instrument_roles : Type := {
  chords : string;
  melody : string;
  bass : string
}.

Record template : Type := {
  tempo : Z * Z;
  scale : string;
  time_signature : list Z;
  instruments : instrument_roles;
  progression : list Z
}.

Definition GENRE_TEMPLATES : list (string * template) :=
  [("lofi",
    {| tempo := (70, 90); scale := "MINOR"; time_signature := [4; 4];
       instruments :=
         {| chords := "rhodes"; melody := "electric_piano";
            bass := "electric_bass_finger" |};
       progression := [1; 6; 4; 5] |});
   ("jazz",
    {| tempo := (120, 180); scale := "DORIAN"; time_signature := [4; 4];
       instruments :=
         {| chords := "acoustic_grand_piano"; melody := "tenor_sax";
            bass := "acoustic_bass" |};
       progression := [2; 5; 1] |});
   ("funk",
    {| tempo := (95, 115); scale := "MINOR"; time_signature := [4; 4];
       instruments :=
         {| chords := "electric_guitar_clean"; melody := "trumpet";
            bass := "slap_bass" |};
       progression := [1; 1; 1; 1] |});
   ("ambient",
    {| tempo := (60, 80); scale := "MAJOR"; time_signature := [4; 4];
       instruments :=
         {| chords := "synth_pad_warm"; melody := "synth_pad_choir";
            bass := "synth_bass_1" |};
       progression := [1; 5; 6; 4] |});
   ("pop",
    {| tempo := (100, 130); scale := "MAJOR"; time_signature := [4; 4];
       instruments :=
         {| chords := "electric_piano"; melody := "synth_lead_sawtooth";
            bass := "electric_bass_finger" |};
       progression := [1; 5; 6; 4] |});
   ("rock",
    {| tempo := (120, 140); scale := "MINOR"; time_signature := [4; 4];
       instruments :=
         {| chords := "electric_guitar_clean"; melody := "synth_lead_square";
            bass := "electric_bass_pick" |};
       progression := [1; 4; 5; 1] |})]%string.

(** The template returned for a genre that is not in the table. *)
Definition fallback_template : template :=
  {| tempo := (120, 140); scale := "MAJOR"; time_signature := [4; 4];
     instruments :=
       {| chords := "electric_piano"; melody := "synth_lead_sawtooth";
          bass := "electric_bass_finger" |};
     progression := [1; 4; 5; 1] |}%string.

(** [s.lower()] on ASCII text. *)
Definition lower_char (c : ascii) : ascii :=
  let n := nat_of_ascii c in
  if ((65 <=? n) && (n <=? 90))%nat then ascii_of_nat (n + 32) else c.

Fixpoint lower (s : string) : string :=
  match s with
  | EmptyString => EmptyString
  | String a r => String (lower_char a) (lower r)
  end.

Definition get_genre_template (genre : string) : template :=
  let genre := lower genre in
  match Py.lookup genre GENRE_TEMPLATES with
  | Some t => t
  | None => fallback_template
  end.

(** [create_syncopated_rhythm]: the three hit lists grow measure by measure.
    An integer hit is written as the float nearest to it; the sums of the
    integer offset and a float convert the offset and can raise
    [OverflowError], first of all in the kick list. *)
Definition syncopated_hihat_body (offset : Z) (hits : list float) (i : Z)
  : result (list float) :=
  step <- int_mul_float i 0.25 ;;
  hit <- int_add_float offset step ;;
  Ok (hits ++ [hit]).

Definition syncopated_measure
    (lists : list float * list float * list float) (measure : Z)
  : result (list float * list float * list float) :=
  let '(kick, snare, closed_hihat) := lists in
  let offset := measure * 4 in
  second <- int_add_float offset 1.5 ;;
  third <- int_add_float offset 2.5 ;;
  let kick := kick ++ [float_of_Z offset; second; third] in
  let snare := snare ++ [float_of_Z (offset + 1); float_of_Z (offset + 3)] in
  closed_hihat <-
    for_each (syncopated_hihat_body offset) (Py.range 16) closed_hihat ;;
  Ok (kick, snare, closed_hihat).

Definition create_syncopated_rhythm (measures : Z)
  : result (list (string * list float)) :=
  lists <- for_each syncopated_measure (Py.range measures) ([], [], []) ;;
  let '(kick, snare, closed_hihat) := lists in
  Ok [("kick", kick); ("snare", snare);
      ("closed_hihat", closed_hihat)]%string.

End MusicTheoryHelper.

(** The drum pattern of a quick composition that is not funk. *)
Definition plain_drum_pattern : list (string * list float) :=
  [("kick", [0; 2]%float); ("snare", [1; 3]%float);
   ("closed_hihat", [0; 0.5; 1; 1.5; 2; 2.5; 3; 3.5]%float)]%string.

(** [create_quick_composition(genre, key, tempo)]; [tempo] is [None] when
    the caller leaves it out. *)
Definition create_quick_composition (genre key : string) (tempo : option Z)
  : result MIDIComposer :=
  let template := MusicTheoryHelper.get_genre_template genre in
  let tempo :=
    match tempo with
    | None =>
        let tempo_range := MusicTheoryHelper.tempo template in
        (fst tempo_range + snd tempo_range) / 2
    | Some t => t
    end in
  let composer :=
    new_MIDIComposer tempo (MusicTheoryHelper.time_signature template) in
  root <- note_name_to_midi key 3 ;;
  scale_type <-
    match ScaleType.of_name (MusicTheoryHelper.scale template) with
    | Some s => Ok s
    | None => Raise (KeyError (MusicTheoryHelper.scale template))
    end ;;
  chord_track <- create_chord_progression root scale_type
                   (MusicTheoryHelper.progression template) 4%float ;;
  program <- INSTRUMENTS_item
               (MusicTheoryHelper.chords
                  (MusicTheoryHelper.instruments template)) ;;
  let chord_track := set_program chord_track program in
  let composer := add_track composer chord_track in
  let bass_pattern :=
    map (fun degree => (degree, 4%float))
        (MusicTheoryHelper.progression template) in
  bass_track <- create_bass_line root scale_type bass_pattern 2 ;;
  program <- INSTRUMENTS_item
               (MusicTheoryHelper.bass
                  (MusicTheoryHelper.instruments template)) ;;
  let bass_track := set_program bass_track program in
  let composer := add_track composer bass_track in
  if existsb (String.eqb genre) ["funk"; "lofi"; "pop"; "rock"]%string then
    drum_pattern <-
      (if String.eqb genre "funk"
       then MusicTheoryHelper.create_syncopated_rhythm 4
       else Ok plain_drum_pattern) ;;
    drum_track <- create_drum_pattern composer drum_pattern 4 ;;
    Ok (add_track composer drum_track)
  else Ok composer.

(** [s[:-1]] *)
Definition drop_last (s : string) : string :=
  substring 0 (String.length s - 1) s.

(** The text of one chord tone in [chord_notes_to_lilypond]:
    [self.midi_to_lilypond_note(n.pitch, 0)[:-1]]. *)
Definition chord_tone_text (pitch : Z) : string :=
  drop_last (LilyPondGenerator.midi_to_lilypond_note pitch 0 false).

(** The file name [generate_from_description] derives from a description,
    on ASCII text: the first 30 characters, of which letters, digits, space,
    hyphen and underscore are kept; trailing spaces are stripped, the other
    spaces become underscores, and [.mid] is appended. *)
Definition is_alnum (c : ascii) : bool :=
  let n := nat_of_ascii c in
  ((48 <=? n) && (n <=? 57) || (65 <=? n) && (n <=? 90)
   || (97 <=? n) && (n <=? 122))%nat.

Definition kept_in_name (c : ascii) : bool :=
  is_alnum c || Ascii.eqb c " " || Ascii.eqb c "-" || Ascii.eqb c "_".

Fixpoint str_filter (keep : ascii -> bool) (s : string) : string :=
  match s with
  | EmptyString => EmptyString
  | String a r => if keep a then String a (str_filter keep r)
                  else str_filter keep r
  end.

(** [s.replace(' ', '_')] *)
Fixpoint spaces_to_underscores (s : string) : string :=
  match s with
  | EmptyString => EmptyString
  | String a r =>
      String (if Ascii.eqb a " " then "_"%char else a)
             (spaces_to_underscores r)
  end.

Definition safe_filename (description : string) : string :=
  let safe_name :=
    Py.rstrip (str_filter kept_in_name (substring 0 30 description)) in
  let safe_name := spaces_to_underscores safe_name in
  (safe_name ++ ".mid")%string.

(** ** Further auxiliary definitions *)

(** A string made of characters [str.strip()] removes. *)
Fixpoint all_space (s : string) : bool :=
  match s with
  | EmptyString => true
  | String a r => Py.is_space a && all_space r
  end.

(** A decision procedure for strictly increasing lists. *)
Fixpoint strictly_sortedb (l : list Z) : bool :=
  match l with
  | [] => true
  | x :: r => forallb (Z.ltb x) r && strictly_sortedb r
  end.


Definition bass_step_sounds (bass_notes : list Z) (step : Z * float) : bool :=
  (fst step >? 0) && (fst step <=? Py.len bass_notes).


(** The hits of one measure that fall on a drum of [DRUM_MAP]. *)
Definition recognised_hits (pattern : list (string * list float)) : Z :=
  Py.len (flat_map (fun item : string * list float =>
                      match Py.lookup (fst item) DRUM_MAP with
                      | Some _ => snd item
                      | None => []
                      end) pattern).

(** What a MIDI sink accepts: data bytes of 0..127 and one of 16 channels. *)
Definition valid_note (n : Note) : Prop :=
  0 <= pitch n <= 127 /\ 0 <= velocity n <= 127.

Definition valid_track (t : Track) : Prop :=
  0 <= channel t <= 15 /\ 0 <= program t <= 127
  /\ Forall valid_note (notes t).

(** The descriptors the loader builds a track for, and the name and channel
    their builder gives to the track. *)
Definition recognised (ts : track_spec) : bool :=
  match ts with
  | OtherTrack => false
  | _ => true
  end.

Definition built_channel (ts : track_spec) : Z :=
  match ts with
  | ChordProgressionTrack _ _ _ => 0
  | MelodyTrack _ _ _ => 1
  | BassTrack _ _ _ => 2
  | DrumsTrack _ _ => 9
  | OtherTrack => 0
  end.

Definition built_name (ts : track_spec) : string :=
  match ts with
  | ChordProgressionTrack _ _ _ => "Chord Progression"
  | MelodyTrack _ _ _ => "Melody"
  | BassTrack _ _ _ => "Bass"
  | DrumsTrack _ _ => "Drums"
  | OtherTrack => ""
  end.

(** The required field a descriptor lacks, if any. *)
Definition missing_field (ts : track_spec) : option string :=
  match ts with
  | ChordProgressionTrack None _ _ => Some "progression"%string
  | MelodyTrack None _ _ => Some "pattern"%string
  | BassTrack None _ _ => Some "pattern"%string
  | DrumsTrack None _ => Some "pattern"%string
  | _ => None
  end.

(** No two pitches of 0..127 share a note name with octave marks. *)
Definition note_name_table : list (Z * string) :=
  map (fun m => (m, LilyPondGenerator.note_name_with_octave m))
      (Py.range 128).

Definition distinct_note_names : bool :=
  forallb
    (fun a : Z * string =>
       forallb
         (fun b : Z * string =>
            (fst a =? fst b) || negb (String.eqb (snd a) (snd b)))
         note_name_table)
    note_name_table.

(** What [create_quick_composition] needs of a template: a scale name of
    [ScaleType], instrument names of [INSTRUMENTS], positive degrees and a
    time signature that is not empty, with a beat count whose offsets over
    four measures can become floats. *)
Definition template_ready (t : MusicTheoryHelper.template) : bool :=
  match ScaleType.of_name (MusicTheoryHelper.scale t),
        Py.lookup (MusicTheoryHelper.chords (MusicTheoryHelper.instruments t))
                  INSTRUMENTS,
        Py.lookup (MusicTheoryHelper.bass (MusicTheoryHelper.instruments t))
                  INSTRUMENTS,
        MusicTheoryHelper.time_signature t with
  | Some _, Some _, Some _, beats :: _ =>
      forallb (fun degree => 1 <=? degree) (MusicTheoryHelper.progression t)
      && (Z.abs beats * 3 <? float_overflow_threshold)
  | _, _, _, _ => false
  end.

(** The genres for which a quick composition gets a drum track. *)
Definition has_drums (genre : string) : bool :=
  existsb (String.eqb genre) ["funk"; "lofi"; "pop"; "rock"]%string.

(** The characters of a file-name stem: letters, digits, hyphen and
    underscore. *)
Definition stem_char (c : ascii) : bool :=
  is_alnum c || Ascii.eqb c "-" || Ascii.eqb c "_".

Fixpoint str_forall (p : ascii -> bool) (s : string) : bool :=
  match s with
  | EmptyString => true
  | String a r => p a && str_forall p r
  end.

(** Text of 7-bit characters. *)
Definition is_ascii_text (s : string) : bool :=
  str_forall (fun c => (nat_of_ascii c <? 128)%nat) s.

(** ** Sample runs *)

Example c_major_chord :
  create_chord 60 ChordQuality.MAJOR 0 false = [60; 64; 67].
Proof. reflexivity. Qed.

Example c_major_scale :
  get_scale_notes 60 ScaleType.MAJOR 2
  = [60; 62; 64; 65; 67; 69; 71; 72; 74; 76; 77; 79; 81; 83].
Proof. reflexivity. Qed.

Example b_flat_minor_name : note_name_to_midi " bbm " 4 = Ok 70.
Proof. reflexivity. Qed.

(** ** Loops as list functions *)

Section LoopLemmas.

Context {A B : Type}.

Lemma fold_left_append_map (f : A -> B) (l : list A) (acc : list B) :
  fold_left (fun acc x => acc ++ [f x]) l acc = acc ++ map f l.
Proof.
  revert acc; induction l as [|x l IH]; intros acc; simpl.
  - now rewrite app_nil_r.
  - now rewrite IH, <- app_assoc.
Qed.

Lemma fold_left_append_filter (f : A -> B) (keep : B -> bool)
    (l : list A) (acc : list B) :
  fold_left (fun acc x => let y := f x in
                          if keep y then acc ++ [y] else acc) l acc
  = acc ++ filter keep (map f l).
Proof.
  revert acc; induction l as [|x l IH]; intros acc; simpl.
  - now rewrite app_nil_r.
  - rewrite IH. destruct (keep (f x)); [|reflexivity].
    now rewrite <- app_assoc.
Qed.

Lemma fold_left_ext (f g : B -> A -> B) (l : list A) (acc : B) :
  (forall b x, f b x = g b x) -> fold_left f l acc = fold_left g l acc.
Proof.
  intros E; revert acc; induction l as [|x l IH]; intros acc; simpl.
  - reflexivity.
  - now rewrite E, IH.
Qed.

Lemma fold_left_append_flat_map (g : A -> list B) (l : list A)
    (acc : list B) :
  fold_left (fun acc x => acc ++ g x) l acc = acc ++ flat_map g l.
Proof.
  revert acc; induction l as [|x l IH]; intros acc; simpl.
  - now rewrite app_nil_r.
  - now rewrite IH, <- app_assoc.
Qed.

Lemma filter_flat_map (keep : B -> bool) (g : A -> list B) (l : list A) :
  filter keep (flat_map g l) = flat_map (fun x => filter keep (g x)) l.
Proof.
  induction l as [|x l IH]; simpl.
  - reflexivity.
  - now rewrite filter_app, IH.
Qed.

Lemma length_flat_map_le (g : A -> list B) (l : list A) (n : nat) :
  (forall x, List.length (g x) <= n)%nat ->
  (List.length (flat_map g l) <= List.length l * n)%nat.
Proof.
  intros H; induction l as [|x l IH]; simpl.
  - lia.
  - rewrite length_app. specialize (H x). lia.
Qed.

End LoopLemmas.

Lemma get_scale_notes_by_octave root scale_type octaves :
  get_scale_notes root scale_type octaves
  = flat_map (fun octave =>
                filter in_midi_range (octave_notes root scale_type octave))
             (Py.range octaves).
Proof.
  unfold get_scale_notes.
  rewrite (fold_left_ext _
             (fun notes octave =>
                notes ++ filter in_midi_range
                           (octave_notes root scale_type octave))).
  - now rewrite fold_left_append_flat_map.
  - intros notes octave.
    apply (fold_left_append_filter
             (fun interval => root + octave * 12 + interval) in_midi_range).
Qed.

Lemma get_scale_notes_filter root scale_type octaves :
  get_scale_notes root scale_type octaves
  = filter in_midi_range
      (flat_map (octave_notes root scale_type) (Py.range octaves)).
Proof. now rewrite get_scale_notes_by_octave, filter_flat_map. Qed.

(** ** Ordered lists *)

Lemma in_midi_range_iff x : in_midi_range x = true <-> 0 <= x <= 127.
Proof. unfold in_midi_range. lia. Qed.

Lemma StronglySorted_app (l1 l2 : list Z) :
  StronglySorted Z.le l1 -> StronglySorted Z.le l2 ->
  (forall x y, In x l1 -> In y l2 -> x <= y) ->
  StronglySorted Z.le (l1 ++ l2).
Proof.
  intros S1 S2 H. induction S1 as [|a l1 S1 IH Ha]; simpl.
  - exact S2.
  - constructor.
    + apply IH. intros x y Hx Hy. apply H; [now right | exact Hy].
    + apply Forall_app; split; [exact Ha|].
      apply Forall_forall. intros y Hy. apply H; [now left | exact Hy].
Qed.

Lemma StronglySorted_filter (keep : Z -> bool) (l : list Z) :
  StronglySorted Z.le l -> StronglySorted Z.le (filter keep l).
Proof.
  induction 1 as [|a l S IH Ha]; simpl.
  - constructor.
  - destruct (keep a); [|exact IH].
    constructor; [exact IH|].
    apply Forall_forall. intros y Hy. apply filter_In in Hy.
    rewrite Forall_forall in Ha. now apply Ha.
Qed.

Lemma StronglySorted_map_add (c : Z) (l : list Z) :
  StronglySorted Z.le l ->
  StronglySorted Z.le (map (fun x => c + x) l).
Proof.
  induction 1 as [|a l S IH Ha]; simpl; constructor; [exact IH|].
  apply Forall_forall. intros y Hy. apply in_map_iff in Hy.
  destruct Hy as [x [<- Hx]]. rewrite Forall_forall in Ha.
  specialize (Ha x Hx). lia.
Qed.

Lemma sortedb_sound l : sortedb l = true -> StronglySorted Z.le l.
Proof.
  induction l as [|x r IH]; simpl; intros H.
  - constructor.
  - apply andb_prop in H. destruct H as [Hx Hr].
    constructor; [now apply IH|].
    apply Forall_forall. intros y Hy.
    rewrite forallb_forall in Hx. apply Z.leb_le. now apply Hx.
Qed.

(** ** Scale expansion *)

Lemma scale_offsets_checked scale_type : scale_offsets_ok scale_type = true.
Proof. destruct scale_type; reflexivity. Qed.

Lemma octave_notes_sorted root scale_type octave :
  StronglySorted Z.le (octave_notes root scale_type octave).
Proof.
  unfold octave_notes. apply StronglySorted_map_add, sortedb_sound.
  pose proof (scale_offsets_checked scale_type) as H.
  unfold scale_offsets_ok in H. now apply andb_prop in H.
Qed.

Lemma octave_notes_bounds root scale_type octave x :
  In x (octave_notes root scale_type octave) ->
  root + octave * 12 <= x <= root + octave * 12 + 11.
Proof.
  unfold octave_notes. intros H. apply in_map_iff in H.
  destruct H as [i [<- Hi]].
  pose proof (scale_offsets_checked scale_type) as H.
  unfold scale_offsets_ok in H. apply andb_prop in H. destruct H as [_ H].
  rewrite forallb_forall in H. specialize (H i Hi). lia.
Qed.

Lemma octaves_sorted root scale_type (n a : nat) :
  let l := flat_map (octave_notes root scale_type) (map Z.of_nat (seq a n)) in
  StronglySorted Z.le l /\ Forall (fun x => root + Z.of_nat a * 12 <= x) l.
Proof.
  revert a; induction n as [|n IH]; intros a; simpl.
  - split; constructor.
  - destruct (IH (S a)) as [Ssorted Slow].
    rewrite Forall_forall in Slow.
    split.
    + apply StronglySorted_app;
        [apply octave_notes_sorted | exact Ssorted |].
      intros x y Hx Hy. apply octave_notes_bounds in Hx.
      specialize (Slow y Hy). lia.
    + apply Forall_app; split; apply Forall_forall; intros x Hx.
      * apply octave_notes_bounds in Hx. lia.
      * specialize (Slow x Hx). lia.
Qed.

Lemma get_scale_notes_strongly_sorted root scale_type span :
  StronglySorted Z.le (get_scale_notes root scale_type span).
Proof.
  rewrite get_scale_notes_filter. apply StronglySorted_filter.
  unfold Py.range.
  apply (octaves_sorted root scale_type (Z.to_nat span) 0).
Qed.

Lemma StronglySorted_last_highest (l : list Z) (x : Z) :
  StronglySorted Z.le (l ++ [x]) -> Forall (fun y => y <= x) (l ++ [x]).
Proof.
  induction l as [|a l IH]; simpl; intros H.
  - repeat constructor. lia.
  - inversion H as [|? ? Hs Ha]; subst. constructor; [|now apply IH].
    rewrite Forall_forall in Ha. apply Ha, in_or_app. right. now left.
Qed.

(** C4.  For every scale definition, every root (in particular every pitch
    of 0..127) and every octave span that is not negative, the expansion of
    the scale is non-decreasing, has at most span times the number of scale
    offsets elements, and all its elements lie in 0..127; it is the unclamped
    candidates [root + 12 * octave + offset] with those outside 0..127 left
    out. *)
Theorem get_scale_notes_sorted_bounded :
  forall (root : Z) (scale_type : ScaleType.t) (span : Z),
    0 <= span ->
    Sorted Z.le (get_scale_notes root scale_type span)
    /\ Py.len (get_scale_notes root scale_type span)
       <= span * Py.len (ScaleType.value scale_type)
    /\ Forall (fun note => 0 <= note <= 127)
              (get_scale_notes root scale_type span)
    /\ get_scale_notes root scale_type span
       = filter in_midi_range
           (flat_map (fun octave =>
                        map (fun offset => root + octave * 12 + offset)
                            (ScaleType.value scale_type))
                     (Py.range span)).
Proof.
  intros root scale_type span Hspan. repeat split.
  - apply StronglySorted_Sorted, get_scale_notes_strongly_sorted.
  - rewrite get_scale_notes_by_octave. unfold Py.len.
    pose proof (length_flat_map_le
                  (fun octave => filter in_midi_range
                                   (octave_notes root scale_type octave))
                  (Py.range span)
                  (List.length (ScaleType.value scale_type))) as H.
    unfold Py.range in *. rewrite length_map, length_seq in H.
    assert (forall octave,
               (List.length (filter in_midi_range
                               (octave_notes root scale_type octave))
                <= List.length (ScaleType.value scale_type))%nat) as Hoct.
    { intros octave. etransitivity; [apply filter_length_le|].
      unfold octave_notes. now rewrite length_map. }
    specialize (H Hoct). nia.
  - rewrite get_scale_notes_filter. apply Forall_forall. intros x Hx.
    apply filter_In in Hx. now apply in_midi_range_iff.
  - apply get_scale_notes_filter.
Qed.

Lemma get_scale_notes_sorted_bounded_witness :
  0 <= 3
  /\ Sorted Z.le (get_scale_notes 60 ScaleType.BLUES 3)
  /\ Py.len (get_scale_notes 60 ScaleType.BLUES 3) <= 3 * 6.
Proof.
  split; [lia|].
  destruct (get_scale_notes_sorted_bounded 60 ScaleType.BLUES 3 ltac:(lia))
    as [Hs [Hl _]].
  split; [exact Hs | exact Hl].
Defined.

(** ** Note construction *)

Lemma clamp_midi_cases x :
  (x < 0 -> clamp_midi x = 0)
  /\ (0 <= x <= 127 -> clamp_midi x = x)
  /\ (127 < x -> clamp_midi x = 127).
Proof. unfold clamp_midi. lia. Qed.

(** C5.  Constructing a note never fails, whatever integers are given as
    pitch and velocity: both are saturated into 0..127 (a value below 0
    becomes 0, a value above 127 becomes 127, a value within the range is
    kept), the times are stored as given; pitch 200 gives 127 and pitch -5
    gives 0. *)
Theorem note_construction_clamps :
  forall (p vel : Z) (start dur : float),
    let n := new_Note p start dur vel in
    pitch n = Z.max 0 (Z.min 127 p)
    /\ velocity n = Z.max 0 (Z.min 127 vel)
    /\ 0 <= pitch n <= 127
    /\ 0 <= velocity n <= 127
    /\ (p < 0 -> pitch n = 0)
    /\ (127 < p -> pitch n = 127)
    /\ (0 <= p <= 127 -> pitch n = p)
    /\ (vel < 0 -> velocity n = 0)
    /\ (127 < vel -> velocity n = 127)
    /\ (0 <= vel <= 127 -> velocity n = vel)
    /\ start_time n = start
    /\ duration n = dur
    /\ pitch (new_Note 200 start dur vel) = 127
    /\ pitch (new_Note (-5) start dur vel) = 0.
Proof.
  intros p vel start dur. cbv zeta. unfold new_Note, Note_post_init. simpl.
  unfold clamp_midi. repeat split; lia.
Qed.

(** ** Diatonic harmonization *)

Lemma ScaleType_eqb_eq a b : ScaleType.eqb a b = true <-> a = b.
Proof.
  unfold ScaleType.eqb. destruct (ScaleType.eq_dec a b); split;
    congruence.
Qed.

(** C1.  The quality chosen for a degree: in a major scale, degrees 1, 4 and
    5 give the major triad, 2, 3 and 6 the minor triad, 7 the diminished
    triad; in every other scale, 3, 6 and 7 give the major triad, 1, 4 and 5
    the minor triad, 2 the diminished triad; any other degree gives the major
    triad in a major scale and the minor triad otherwise.  The flag the
    progression builder passes is true for the major scale only. *)
Theorem harmonize_degree_rule :
  forall degree : Z,
    ((degree = 1 \/ degree = 4 \/ degree = 5) ->
       harmonize_degree degree true = ChordQuality.MAJOR)
    /\ ((degree = 2 \/ degree = 3 \/ degree = 6) ->
       harmonize_degree degree true = ChordQuality.MINOR)
    /\ (degree = 7 -> harmonize_degree degree true = ChordQuality.DIMINISHED)
    /\ ((degree < 1 \/ 7 < degree) ->
       harmonize_degree degree true = ChordQuality.MAJOR)
    /\ ((degree = 3 \/ degree = 6 \/ degree = 7) ->
       harmonize_degree degree false = ChordQuality.MAJOR)
    /\ ((degree = 1 \/ degree = 4 \/ degree = 5) ->
       harmonize_degree degree false = ChordQuality.MINOR)
    /\ (degree = 2 -> harmonize_degree degree false = ChordQuality.DIMINISHED)
    /\ ((degree < 1 \/ 7 < degree) ->
       harmonize_degree degree false = ChordQuality.MINOR)
    /\ (forall (scale_type : ScaleType.t) (root : Z) (scale_notes : list Z),
          chord_of_degree root scale_type scale_notes degree
          = bind (chord_root root scale_notes degree)
              (fun r =>
                 Ok (create_chord r
                       (harmonize_degree degree
                          (ScaleType.eqb scale_type ScaleType.MAJOR)) 0 false)))
    /\ (forall scale_type : ScaleType.t,
          ScaleType.eqb scale_type ScaleType.MAJOR = true
          <-> scale_type = ScaleType.MAJOR).
Proof.
  intros degree. unfold harmonize_degree, Py.contains. simpl.
  repeat match goal with |- _ /\ _ => split end;
    try (intros H;
         repeat match goal with
                | |- context [?a =? ?b] => destruct (Z.eqb_spec a b)
                end; try reflexivity; lia).
  - reflexivity.
  - intros scale_type. apply ScaleType_eqb_eq.
Qed.

(** ** Sorting *)

Lemma insert_In x y l : In y (Py.insert x l) <-> y = x \/ In y l.
Proof.
  induction l as [|z l IH]; simpl.
  - intuition.
  - destruct (x <=? z); simpl; rewrite ?IH; intuition.
Qed.

Lemma insert_sorted x l :
  StronglySorted Z.le l -> StronglySorted Z.le (Py.insert x l).
Proof.
  induction 1 as [|z l S IH Hz]; simpl.
  - repeat constructor.
  - destruct (Z.leb_spec x z).
    + constructor; [now constructor|].
      constructor; [assumption|].
      eapply Forall_impl; [|exact Hz]. intros; simpl in *; lia.
    + constructor; [exact IH|].
      apply Forall_forall. intros y Hy. apply insert_In in Hy.
      rewrite Forall_forall in Hz. destruct Hy as [->|Hy]; [lia|auto].
Qed.

Lemma sort_In y l : In y (Py.sort l) <-> In y l.
Proof.
  induction l as [|x l IH]; simpl; [tauto|].
  rewrite insert_In, IH. intuition.
Qed.

Lemma sort_sorted l : StronglySorted Z.le (Py.sort l).
Proof.
  induction l as [|x l IH]; simpl; [constructor | now apply insert_sorted].
Qed.

Lemma insert_length x l : List.length (Py.insert x l) = S (List.length l).
Proof.
  induction l as [|z l IH]; simpl; [reflexivity|].
  destruct (x <=? z); simpl; [reflexivity | now rewrite IH].
Qed.

Lemma sort_length l : List.length (Py.sort l) = List.length l.
Proof.
  induction l as [|x l IH]; simpl; [reflexivity|].
  now rewrite insert_length, IH.
Qed.

(** ** Chord inversion *)

Lemma invert_once_length l :
  List.length (invert_once l) = List.length l.
Proof.
  destruct l as [|x r]; [reflexivity|].
  unfold invert_once. now rewrite sort_length.
Qed.

(** The subscript [intervals[0]] of the inversion loop never fails: the
    offsets start non-empty and every pass keeps their number. *)
Lemma invert_length inversion quality :
  List.length (invert inversion (ChordQuality.value quality))
  = List.length (ChordQuality.value quality)
  /\ ChordQuality.value quality <> [].
Proof.
  split; [|destruct quality; discriminate].
  unfold invert. destruct (inversion >? 0); [|reflexivity].
  generalize (Py.range inversion) as passes.
  generalize (ChordQuality.value quality) as l.
  intros l passes; revert l.
  induction passes as [|p passes IH]; intros l; simpl; [reflexivity|].
  now rewrite IH, invert_once_length.
Qed.

Lemma tightb_sound l : tightb l = true -> tight l.
Proof.
  unfold tightb, tight. intros H. apply andb_prop in H.
  destruct H as [Hs Hb]. split; [now apply sortedb_sound|].
  intros a b Ha Hb'. rewrite forallb_forall in Hb.
  specialize (Hb a Ha). rewrite forallb_forall in Hb.
  specialize (Hb b Hb'). lia.
Qed.

Lemma invert_once_tight l : tight l -> tight (invert_once l).
Proof.
  intros [Hs Hspread]. destruct l as [|x r]; [split; [constructor|easy]|].
  unfold invert_once. split; [apply sort_sorted|].
  inversion Hs as [|? ? Hr Hx]; subst. rewrite Forall_forall in Hx.
  assert (forall a, In a (Py.sort (x + 12 :: r)) -> x <= a <= x + 12) as Hin.
  { intros a Ha. apply (proj1 (sort_In _ _)) in Ha.
    destruct Ha as [Ha|Ha]; [lia|].
    split; [now apply Hx|].
    apply (Hspread x a); [now left | now right]. }
  intros a b Ha Hb. apply Hin in Ha. apply Hin in Hb. lia.
Qed.

Lemma first_inversion_tight quality :
  tight (invert_once (ChordQuality.value quality)).
Proof. apply tightb_sound. destruct quality; reflexivity. Qed.

Lemma invert_tight inversion quality :
  0 < inversion -> tight (invert inversion (ChordQuality.value quality)).
Proof.
  intros Hk. unfold invert.
  destruct (Z.gtb_spec inversion 0) as [_|]; [|lia].
  unfold Py.range.
  destruct (Z.to_nat inversion) as [|n] eqn:E; [lia|].
  simpl. pose proof (first_inversion_tight quality) as H.
  revert H. generalize (invert_once (ChordQuality.value quality)) as l.
  generalize (map Z.of_nat (seq 1 n)) as passes.
  induction passes as [|p passes IH]; intros l Hl; simpl; [exact Hl|].
  apply IH. now apply invert_once_tight.
Qed.

Lemma create_chord_unfold root quality inversion octave_doubling :
  create_chord root quality inversion octave_doubling
  = filter in_midi_range
      (match map (fun interval => root + interval)
                 (invert inversion (ChordQuality.value quality)) with
       | first :: rest =>
           if octave_doubling
           then (first :: rest) ++ [first + 12]
           else first :: rest
       | [] => []
       end).
Proof.
  unfold create_chord.
  destruct (map _ (invert inversion (ChordQuality.value quality)));
    reflexivity.
Qed.

Lemma create_chord_sorted root quality inversion octave_doubling :
  0 < inversion ->
  StronglySorted Z.le (create_chord root quality inversion octave_doubling).
Proof.
  intros Hk. rewrite create_chord_unfold. apply StronglySorted_filter.
  destruct (invert_tight inversion quality Hk) as [Hs Hspread].
  pose proof (StronglySorted_map_add root _ Hs) as Hm.
  destruct (invert inversion (ChordQuality.value quality)) as [|i0 iv];
    [constructor|].
  simpl map in *. destruct octave_doubling; [|exact Hm].
  apply StronglySorted_app; [exact Hm | repeat constructor |].
  intros x y Hx [<-|[]].
  change (In x (map (fun interval => root + interval) (i0 :: iv))) in Hx.
  apply in_map_iff in Hx. destruct Hx as [i [<- Hi]].
  specialize (Hspread i0 i (or_introl eq_refl) Hi). lia.
Qed.

Lemma create_chord_root_first root quality octave_doubling :
  0 <= root <= 127 ->
  hd_error (create_chord root quality 0 octave_doubling) = Some root.
Proof.
  intros Hroot. rewrite create_chord_unfold. unfold invert. simpl.
  assert (in_midi_range (root + 0) = true) as Hin
      by (apply in_midi_range_iff; lia).
  destruct quality; destruct octave_doubling; simpl; rewrite Hin; simpl;
    f_equal; lia.
Qed.

Lemma create_chord_raised_tones root quality octave_doubling k offset :
  0 < k <= Py.len (ChordQuality.value quality) ->
  Forall (fun o => o <= 12)
         (firstn (Z.to_nat k) (ChordQuality.value quality)) ->
  In offset (firstn (Z.to_nat k) (ChordQuality.value quality)) ->
  0 <= root + offset + 12 <= 127 ->
  In (root + offset + 12) (create_chord root quality k octave_doubling).
Proof.
  intros Hk Hlow Hin Hrange. rewrite create_chord_unfold.
  apply filter_In. split; [|apply in_midi_range_iff; exact Hrange].
  clear Hrange.
  assert (k = 1 \/ k = 2 \/ k = 3 \/ k = 4) as Hcases.
  { destruct quality; unfold Py.len in Hk; simpl in Hk; lia. }
  destruct quality;
    destruct Hcases as [-> | [-> | [-> | ->]]];
    try (unfold Py.len in Hk; simpl in Hk; lia);
    simpl in Hin, Hlow;
    try (exfalso;
         repeat match goal with
                | H : Forall _ (_ :: _) |- _ => inversion H; clear H; subst
                end; lia);
    clear Hlow Hk;
    repeat match goal with
           | H : _ \/ _ |- _ => destruct H as [H|H]
           | H : False |- _ => destruct H
           end; subst offset;
    destruct octave_doubling; simpl; lia.
Qed.

(** C3, as the code has it.  With inversion 0 a chord on a root pitch of
    0..127 starts with the root.  With an inversion k > 0 the chord is in
    ascending order, and when k is at most the number of chord tones and the
    k lowest offsets of the quality are at most 12 (every case but ADD9 with
    k = 4), each of the k lowest original tones, raised by 12 semitones, is
    in the chord provided the raised pitch lies in 0..127. *)
Theorem create_chord_inversions :
  forall (root : Z) (quality : ChordQuality.t) (octave_doubling : bool),
    (0 <= root <= 127 ->
       hd_error (create_chord root quality 0 octave_doubling) = Some root)
    /\ (forall k : Z,
          0 < k -> Sorted Z.le (create_chord root quality k octave_doubling))
    /\ (forall k offset : Z,
          0 < k <= Py.len (ChordQuality.value quality) ->
          Forall (fun o => o <= 12)
                 (firstn (Z.to_nat k) (ChordQuality.value quality)) ->
          In offset (firstn (Z.to_nat k) (ChordQuality.value quality)) ->
          0 <= root + offset + 12 <= 127 ->
          In (root + offset + 12)
             (create_chord root quality k octave_doubling)).
Proof.
  intros root quality octave_doubling. split; [|split].
  - apply create_chord_root_first.
  - intros k Hk. now apply StronglySorted_Sorted, create_chord_sorted.
  - intros k offset. apply create_chord_raised_tones.
Qed.

Lemma create_chord_inversions_witness :
  hd_error (create_chord 60 ChordQuality.MINOR7 0 false) = Some 60
  /\ Sorted Z.le (create_chord 60 ChordQuality.MINOR7 2 false)
  /\ In (60 + 3 + 12) (create_chord 60 ChordQuality.MINOR7 2 false).
Proof.
  destruct (create_chord_inversions 60 ChordQuality.MINOR7 false)
    as [Hroot [Hsorted Hraised]].
  split; [apply Hroot; lia|].
  split; [apply Hsorted; lia|].
  apply Hraised.
  - unfold Py.len; simpl; lia.
  - simpl. repeat constructor; lia.
  - simpl. right; left; reflexivity.
  - lia.
Defined.

(** C3 fails as stated: a raised tone that leaves 0..127 is dropped (root
    120), the fourth pass of ADD9 raises the tone that was already raised and
    leaves the ninth in place, and an inversion beyond the number of tones
    raises the lowest tone twice. *)
Lemma create_chord_inversions_counterexample :
  create_chord 120 ChordQuality.MAJOR 1 false = [124; 127]
  /\ ~ In (120 + 0 + 12) (create_chord 120 ChordQuality.MAJOR 1 false)
  /\ create_chord 60 ChordQuality.ADD9 4 false = [74; 76; 79; 84]
  /\ ~ In (60 + 14 + 12) (create_chord 60 ChordQuality.ADD9 4 false)
  /\ create_chord 60 ChordQuality.MAJOR 4 false = [76; 79; 84]
  /\ ~ In (60 + 0 + 12) (create_chord 60 ChordQuality.MAJOR 4 false).
Proof.
  repeat split; try reflexivity; vm_compute; intuition discriminate.
Qed.


Lemma for_each_cons {A S : Type} (body : S -> A -> result S)
    (x : A) (r : list A) (s : S) :
  for_each body (x :: r) s
  = bind (body s x) (fun s' => for_each body r s').
Proof. reflexivity. Qed.

(** ** Subscripts *)

Lemma getitem_in_range l i :
  0 <= i < Py.len l ->
  exists x, Py.getitem l i = Ok x /\ nth_error l (Z.to_nat i) = Some x.
Proof.
  intros Hi. unfold Py.getitem.
  destruct (Z.ltb_spec i 0) as [|_]; [lia|].
  destruct (Z.leb_spec 0 i) as [_|]; [|lia].
  destruct (Z.ltb_spec i (Py.len l)) as [_|]; [|lia].
  simpl. destruct (nth_error l (Z.to_nat i)) as [x|] eqn:E.
  - now exists x.
  - apply nth_error_None in E. unfold Py.len in Hi. lia.
Qed.

Lemma getitem_from_end l i :
  - Py.len l <= i < 0 ->
  exists x, Py.getitem l i = Ok x
            /\ nth_error l (Z.to_nat (Py.len l + i)) = Some x.
Proof.
  intros Hi. unfold Py.getitem.
  destruct (Z.ltb_spec i 0) as [_|]; [|lia].
  destruct (Z.leb_spec 0 (i + Py.len l)) as [_|]; [|lia].
  destruct (Z.ltb_spec (i + Py.len l) (Py.len l)) as [_|]; [|lia].
  simpl. replace (Py.len l + i) with (i + Py.len l) by lia.
  destruct (nth_error l (Z.to_nat (i + Py.len l))) as [x|] eqn:E.
  - now exists x.
  - apply nth_error_None in E. unfold Py.len in *. lia.
Qed.

(** ** The chord-progression builder *)

Lemma chord_root_positive root scale_notes degree :
  1 <= degree -> exists r, chord_root root scale_notes degree = Ok r.
Proof.
  intros Hd. unfold chord_root.
  destruct (Z.leb_spec degree (Py.len scale_notes)).
  - destruct (getitem_in_range scale_notes (degree - 1)) as [x [Hx _]];
      [lia|]. now exists x.
  - now exists root.
Qed.

Lemma chord_of_degree_positive root scale_type scale_notes degree :
  1 <= degree ->
  exists chord,
    chord_of_degree root scale_type scale_notes degree = Ok chord.
Proof.
  intros Hd. unfold chord_of_degree.
  destruct (chord_root_positive root scale_notes degree Hd) as [r ->].
  simpl. eauto.
Qed.

Lemma progression_body_chord root scale_type scale_notes dur st degree :
  progression_body root scale_type scale_notes dur st degree
  = bind (chord_of_degree root scale_type scale_notes degree)
      (fun chord =>
         Ok (fst st ++ chord_notes chord (snd st) dur,
             (snd st + dur)%float)).
Proof.
  destruct st as [notes current_time]. unfold progression_body.
  destruct (chord_of_degree root scale_type scale_notes degree) as [chord|e];
    simpl; [|reflexivity].
  unfold chord_notes.
  now rewrite (fold_left_append_map
                 (fun pitch => new_Note pitch current_time dur 70)).
Qed.

(** The loop emits the chords of the progression one after the other. *)
Lemma progression_loop_chords root scale_type scale_notes dur progression st :
  for_each (progression_body root scale_type scale_notes dur) progression st
  = bind (progression_chords root scale_type scale_notes progression)
      (fun chords => Ok (lay_out chords dur st)).
Proof.
  revert st. induction progression as [|degree rest IH]; intros st; simpl.
  - reflexivity.
  - rewrite progression_body_chord.
    destruct (chord_of_degree root scale_type scale_notes degree)
      as [chord|e]; simpl; [|reflexivity].
    rewrite IH.
    destruct (progression_chords root scale_type scale_notes rest);
      reflexivity.
Qed.

Lemma create_chord_progression_chords root scale_type progression dur chords :
  progression_chords root scale_type
    (get_scale_notes root scale_type 3) progression = Ok chords ->
  create_chord_progression root scale_type progression dur
  = Ok {| name := "Chord Progression"; channel := 0;
          notes := fst (lay_out chords dur ([], 0%float)); program := 4 |}.
Proof.
  intros H. unfold create_chord_progression, progression_loop.
  now rewrite progression_loop_chords, H.
Qed.

(** C2, as the code has it.  For the progression 1, 4, 5, 1 in the major
    scale, on every root and with every chord duration, the builder
    succeeds, and the first and the fourth chord it generates are the same
    pitches (degree 1 recurs); the track is the four chords laid out one
    after the other. *)
Theorem progression_first_and_fourth_chord :
  forall (root : Z) (dur : float),
  exists c1 c2 c3 c4 : list Z,
    progression_chords root ScaleType.MAJOR
      (get_scale_notes root ScaleType.MAJOR 3) [1; 4; 5; 1]
    = Ok [c1; c2; c3; c4]
    /\ c1 = c4
    /\ create_chord_progression root ScaleType.MAJOR [1; 4; 5; 1] dur
       = Ok {| name := "Chord Progression"; channel := 0;
               notes := chord_notes c1 0 dur
                        ++ chord_notes c2 (0 + dur) dur
                        ++ chord_notes c3 (0 + dur + dur) dur
                        ++ chord_notes c4 (0 + dur + dur + dur) dur;
               program := 4 |}.
Proof.
  intros root dur.
  set (scale_notes := get_scale_notes root ScaleType.MAJOR 3).
  destruct (chord_of_degree_positive root ScaleType.MAJOR scale_notes 1)
    as [c1 H1]; [lia|].
  destruct (chord_of_degree_positive root ScaleType.MAJOR scale_notes 4)
    as [c2 H4]; [lia|].
  destruct (chord_of_degree_positive root ScaleType.MAJOR scale_notes 5)
    as [c3 H5]; [lia|].
  assert (progression_chords root ScaleType.MAJOR scale_notes [1; 4; 5; 1]
          = Ok [c1; c2; c3; c1]) as Hchords.
  { simpl. now rewrite H1, H4, H5. }
  exists c1, c2, c3, c1. split; [exact Hchords|]. split; [reflexivity|].
  rewrite (create_chord_progression_chords _ _ _ _ _ Hchords). simpl.
  now rewrite <- !app_assoc.
Qed.

(** C2 fails as stated: on middle C the second chord of the progression is
    the triad on F and the fourth the triad on C. *)
Lemma progression_second_and_fourth_chord_differ :
  progression_chords 60 ScaleType.MAJOR
    (get_scale_notes 60 ScaleType.MAJOR 3) [1; 4; 5; 1]
  = Ok [[60; 64; 67]; [65; 69; 72]; [67; 71; 74]; [60; 64; 67]]
  /\ create_chord_progression 60 ScaleType.MAJOR [1; 4; 5; 1] 4
     = Ok {| name := "Chord Progression"; channel := 0;
             notes := chord_notes [60; 64; 67] 0 4
                      ++ chord_notes [65; 69; 72] 4 4
                      ++ chord_notes [67; 71; 74] 8 4
                      ++ chord_notes [60; 64; 67] 12 4;
             program := 4 |}
  /\ In 65 [65; 69; 72]
  /\ ~ In 65 [60; 64; 67].
Proof.
  repeat split; try reflexivity.
  - simpl; auto.
  - simpl. intuition discriminate.
Qed.

(** What the builder does with a degree whose chord root is [r]: the pass
    of the loop appends the chord on [r], and the progression of that one
    degree is the track of this chord. *)
Lemma chord_root_built root scale_type degree r :
  chord_root root (get_scale_notes root scale_type 3) degree = Ok r ->
  let chord :=
    create_chord r
      (harmonize_degree degree (ScaleType.eqb scale_type ScaleType.MAJOR))
      0 false in
  (forall notes current_time dur,
      progression_body root scale_type (get_scale_notes root scale_type 3)
        dur (notes, current_time) degree
      = Ok (notes ++ map (fun pitch => new_Note pitch current_time dur 70)
                         chord,
            (current_time + dur)%float))
  /\ (forall dur,
        create_chord_progression root scale_type [degree] dur
        = Ok {| name := "Chord Progression"; channel := 0;
                notes := map (fun pitch => new_Note pitch 0 dur 70) chord;
                program := 4 |}).
Proof.
  intros Hroot chord. split.
  - intros notes current_time dur. rewrite progression_body_chord.
    unfold chord_of_degree. rewrite Hroot. reflexivity.
  - intros dur.
    rewrite (create_chord_progression_chords root scale_type [degree] dur
               [chord]); [reflexivity|].
    cbn [progression_chords]. unfold chord_of_degree. now rewrite Hroot.
Qed.

(** C8.  In the progression builder the fall-back to the unmodified root
    applies only to a degree beyond the length of the expanded scale.  A
    degree d with -len < d <= 0 is a subscript from the end: the chord root
    is the element at position len + d - 1 of the three-octave expansion,
    and for degree 0 it is the last and highest element; the pass of the
    builder's loop appends the chord built on it, and the builder run on
    that degree returns the track of this chord.  A degree of 1..len builds
    its chord on the element at position d - 1, and only a degree above len
    builds it on the unmodified root. *)
Theorem chord_root_nonpositive_degree :
  forall (root : Z) (scale_type : ScaleType.t) (d : Z),
    let scale_notes := get_scale_notes root scale_type 3 in
    let built_on (r degree : Z) : Prop :=
      let chord :=
        create_chord r
          (harmonize_degree degree
             (ScaleType.eqb scale_type ScaleType.MAJOR)) 0 false in
      (forall notes current_time dur,
          progression_body root scale_type scale_notes dur
            (notes, current_time) degree
          = Ok (notes ++ map (fun pitch =>
                                new_Note pitch current_time dur 70) chord,
                (current_time + dur)%float))
      /\ (forall dur,
            create_chord_progression root scale_type [degree] dur
            = Ok {| name := "Chord Progression"; channel := 0;
                    notes := map (fun pitch => new_Note pitch 0 dur 70)
                                 chord;
                    program := 4 |}) in
    - Py.len scale_notes < d <= 0 ->
    exists r : Z,
      nth_error scale_notes (Z.to_nat (Py.len scale_notes + d - 1)) = Some r
      /\ chord_root root scale_notes d = Ok r
      /\ (d = 0 ->
          r = last scale_notes 0 /\ Forall (fun x => x <= r) scale_notes)
      /\ progression_chords root scale_type scale_notes [d]
         = Ok [create_chord r
                 (harmonize_degree d
                    (ScaleType.eqb scale_type ScaleType.MAJOR)) 0 false]
      /\ built_on r d
      /\ (forall d' : Z,
            Py.len scale_notes < d' ->
            chord_root root scale_notes d' = Ok root /\ built_on root d')
      /\ (forall d' : Z,
            1 <= d' <= Py.len scale_notes ->
            exists r' : Z,
              nth_error scale_notes (Z.to_nat (d' - 1)) = Some r'
              /\ chord_root root scale_notes d' = Ok r'
              /\ built_on r' d').
Proof.
  intros root scale_type d scale_notes built_on Hd.
  destruct (getitem_from_end scale_notes (d - 1)) as [r [Hget Hnth]];
    [lia|].
  replace (Py.len scale_notes + (d - 1))
    with (Py.len scale_notes + d - 1) in Hnth by lia.
  assert (chord_root root scale_notes d = Ok r) as Hroot.
  { unfold chord_root.
    destruct (Z.leb_spec d (Py.len scale_notes)); [exact Hget|lia]. }
  exists r. split; [|split; [|split; [|split; [|split; [|split]]]]].
  - exact Hnth.
  - exact Hroot.
  - intros ->. clear Hget Hroot.
    destruct (exists_last (l := scale_notes)) as [front [x Hx]].
    { intros E. rewrite E in Hd. unfold Py.len in Hd. simpl in Hd. lia. }
    rewrite Hx in *. rewrite last_last.
    unfold Py.len in Hnth. rewrite length_app in Hnth. simpl in Hnth.
    replace (Z.to_nat (Z.of_nat (List.length front + 1) + 0 - 1))
      with (List.length front) in Hnth by lia.
    rewrite nth_error_app2, Nat.sub_diag in Hnth by lia.
    simpl in Hnth. injection Hnth as <-.
    split; [reflexivity|].
    apply StronglySorted_last_highest. rewrite <- Hx.
    apply get_scale_notes_strongly_sorted.
  - simpl. unfold chord_of_degree. now rewrite Hroot.
  - apply (chord_root_built root scale_type d r Hroot).
  - intros d' Hd'.
    assert (chord_root root scale_notes d' = Ok root) as Hfall.
    { unfold chord_root.
      destruct (Z.leb_spec d' (Py.len scale_notes)); [lia|reflexivity]. }
    split; [exact Hfall|].
    apply (chord_root_built root scale_type d' root Hfall).
  - intros d' Hd'.
    destruct (getitem_in_range scale_notes (d' - 1)) as [r' [Hget' Hnth']];
      [lia|].
    assert (chord_root root scale_notes d' = Ok r') as Hroot'.
    { unfold chord_root.
      destruct (Z.leb_spec d' (Py.len scale_notes)); [exact Hget'|lia]. }
    exists r'. split; [exact Hnth'|]. split; [exact Hroot'|].
    apply (chord_root_built root scale_type d' r' Hroot').
Qed.

Lemma chord_root_nonpositive_degree_witness :
  - Py.len (get_scale_notes 60 ScaleType.MAJOR 3) < 0 <= 0
  /\ chord_root 60 (get_scale_notes 60 ScaleType.MAJOR 3) 0 = Ok 95
  /\ create_chord_progression 60 ScaleType.MAJOR [0] 4
     = Ok {| name := "Chord Progression"; channel := 0;
             notes := map (fun pitch => new_Note pitch 0 4 70)
                          [95; 99; 102];
             program := 4 |}.
Proof.
  assert (- Py.len (get_scale_notes 60 ScaleType.MAJOR 3) < 0 <= 0) as H
      by (vm_compute; split; [reflexivity | discriminate]).
  split; [exact H|].
  destruct (chord_root_nonpositive_degree 60 ScaleType.MAJOR 0 H)
    as [r [_ [Hroot [Hlast [_ [[_ Htrack] _]]]]]].
  destruct (Hlast eq_refl) as [Hr _].
  assert (r = 95) as -> by (rewrite Hr; reflexivity).
  split; [exact Hroot | apply Htrack].
Defined.

(** ** The melody builder *)


(** A positive degree always finds its note when the expansion is not
    empty: the scale note at (degree - 1) mod len, raised by 12 semitones
    for every full turn through the expansion. *)
Lemma melody_body_positive scale_notes notes current_time degree dur rest :
  scale_notes <> [] -> 0 < degree ->
  exists x,
    nth_error scale_notes
      (Z.to_nat ((degree - 1) mod Py.len scale_notes)) = Some x
    /\ melody_body scale_notes (notes, current_time) (degree, dur, rest)
       = Ok (notes
             ++ [new_Note (x + (degree - 1) / Py.len scale_notes * 12)
                   current_time dur 85],
             (current_time + (dur + rest))%float).
Proof.
  intros Hne Hd. unfold melody_body.
  destruct (Z.gtb_spec degree 0) as [_|]; [|lia].
  assert (0 < Py.len scale_notes) as Hlen.
  { unfold Py.len. destruct scale_notes; [congruence | simpl; lia]. }
  unfold py_mod, py_floordiv.
  destruct (Z.eqb_spec (Py.len scale_notes) 0) as [|_]; [lia|]. simpl.
  destruct (getitem_in_range scale_notes
              ((degree - 1) mod Py.len scale_notes)) as [x [-> Hnth]].
  { apply Z.mod_pos_bound. exact Hlen. }
  simpl. eauto.
Qed.




(** C9.  The melody builder never consults [start_octave]: any two values
    give the same result, also through the loader's melody descriptor. *)
Theorem create_melody_ignores_start_octave :
  forall (root : Z) (scale_type : ScaleType.t)
         (pattern : list (Z * float * float)) (a b : Z),
    create_melody root scale_type pattern a
    = create_melody root scale_type pattern b
    /\ forall (composer : MIDIComposer) (instrument : option string),
         build_track composer root scale_type
           (MelodyTrack (Some pattern) (Some a) instrument)
         = build_track composer root scale_type
             (MelodyTrack (Some pattern) (Some b) instrument).
Proof. intros; split; reflexivity. Qed.

(** ** Note names *)

Lemma remove_char_idempotent c s :
  Py.remove_char c (Py.remove_char c s) = Py.remove_char c s.
Proof.
  induction s as [|a s IH]; simpl; [reflexivity|].
  destruct (Ascii.eqb a c) eqn:E; simpl; [exact IH|].
  now rewrite E, IH.
Qed.

Lemma remove_char_absent c s :
  forall n, String.get n (Py.remove_char c s) <> Some c.
Proof.
  induction s as [|a s IH]; intros n; simpl; [discriminate|].
  destruct (Ascii.eqb_spec a c) as [->|Hne]; [apply IH|].
  destruct n as [|n]; simpl; [congruence | apply IH].
Qed.

(** C10.  Pitch resolution deletes every lowercase m from the name before
    the lookup: the name and the name without its m's resolve alike, and the
    text that is stripped, upper-cased and looked up holds no m.  So in every
    octave Am, Cm and Em resolve to the pitches of A, C and E instead of
    failing with InvalidNoteName. *)
Theorem note_name_minor_suffix_dropped :
  forall octave : Z,
    (forall note_name : string,
        note_name_to_midi note_name octave
        = note_name_to_midi (Py.remove_char "m"%char note_name) octave)
    /\ (forall (note_name : string) (n : nat),
          String.get n (Py.remove_char "m"%char note_name) <> Some "m"%char)
    /\ note_name_to_midi "Am"%string octave
       = note_name_to_midi "A"%string octave
    /\ note_name_to_midi "Am"%string octave
       = Ok (clamp_midi ((octave + 1) * 12 + 9))
    /\ note_name_to_midi "Cm"%string octave
       = note_name_to_midi "C"%string octave
    /\ note_name_to_midi "Cm"%string octave
       = Ok (clamp_midi ((octave + 1) * 12 + 0))
    /\ note_name_to_midi "Em"%string octave
       = note_name_to_midi "E"%string octave
    /\ note_name_to_midi "Em"%string octave
       = Ok (clamp_midi ((octave + 1) * 12 + 4)).
Proof.
  intros octave. repeat split.
  - intros note_name. unfold note_name_to_midi, normalize_note_name.
    now rewrite remove_char_idempotent.
  - intros note_name n. apply remove_char_absent.
Qed.

(** ** The loader *)

Lemma run_create_from_json_unknown_scale data :
  ScaleType.of_name (get (spec_scale data) "MAJOR"%string) = None ->
  run_create_from_json data
  = match note_name_to_midi (get (spec_key data) "C"%string)
            (get (spec_octave data) 4) with
    | Ok _ => Aborted (UnknownScale (get (spec_scale data) "MAJOR"%string))
                (new_MIDIComposer (get (spec_tempo data) 120)
                   (get (spec_time_signature data) [4; 4]))
    | Raise e => Aborted e
                   (new_MIDIComposer (get (spec_tempo data) 120)
                      (get (spec_time_signature data) [4; 4]))
    end.
Proof.
  intros H. unfold run_create_from_json. rewrite H.
  destruct (note_name_to_midi _ _); reflexivity.
Qed.

(** C7, as the code has it.  When the scale field names no scale definition
    the loader fails before any track is built: the exception leaves it with
    a composer that holds no track, and nothing is returned.  The exception
    is UnknownScale whenever the key resolves; the key is resolved first, so
    a name that is no note name fails with InvalidNoteName instead. *)
Theorem create_from_json_unknown_scale :
  forall data : composition_spec,
    let scale_name := get (spec_scale data) "MAJOR"%string in
    let key_name := get (spec_key data) "C"%string in
    let octave := get (spec_octave data) 4 in
    ScaleType.of_name scale_name = None ->
    exists (e : exn) (composer : MIDIComposer),
      run_create_from_json data = Aborted e composer
      /\ tracks composer = []
      /\ create_from_json data = Raise e
      /\ ((exists root, note_name_to_midi key_name octave = Ok root) ->
          e = UnknownScale scale_name)
      /\ (note_name_to_midi key_name octave
          = Raise (InvalidNoteName (normalize_note_name key_name)) ->
          e = InvalidNoteName (normalize_note_name key_name))
      /\ (e = UnknownScale scale_name
          \/ e = InvalidNoteName (normalize_note_name key_name)).
Proof.
  intros data scale_name key_name octave Hscale.
  pose proof (run_create_from_json_unknown_scale data Hscale) as Hrun.
  fold scale_name key_name octave in Hrun.
  unfold create_from_json. rewrite Hrun.
  destruct (note_name_to_midi key_name octave) as [root|e] eqn:Hkey.
  - eexists; eexists. repeat split; eauto. discriminate.
  - assert (e = InvalidNoteName (normalize_note_name key_name)) as ->.
    { unfold note_name_to_midi in Hkey.
      destruct (Py.str_index _ _); congruence. }
    eexists; eexists. repeat split; eauto.
    intros [root Hroot]. discriminate.
Qed.

Lemma create_from_json_unknown_scale_witness :
  ScaleType.of_name "LYDIAN_DOMINANT"%string = None
  /\ exists (e : exn) (composer : MIDIComposer),
       run_create_from_json
         {| spec_tempo := Some 90; spec_time_signature := None;
            spec_key := Some "Am"%string; spec_octave := Some 3;
            spec_scale := Some "LYDIAN_DOMINANT"%string;
            spec_tracks := Some [ChordProgressionTrack (Some [1; 4; 5; 1])
                                   None None] |}
       = Aborted e composer
       /\ tracks composer = []
       /\ e = UnknownScale "LYDIAN_DOMINANT"%string.
Proof.
  split; [reflexivity|].
  destruct (create_from_json_unknown_scale
              {| spec_tempo := Some 90; spec_time_signature := None;
                 spec_key := Some "Am"%string; spec_octave := Some 3;
                 spec_scale := Some "LYDIAN_DOMINANT"%string;
                 spec_tracks := Some [ChordProgressionTrack (Some [1; 4; 5; 1])
                                        None None] |} eq_refl)
    as [e [composer [Hrun [Htracks [_ [Hkey _]]]]]].
  exists e, composer. split; [exact Hrun|]. split; [exact Htracks|].
  apply Hkey. exists 57. reflexivity.
Defined.

(** C7 fails as stated: with a key that is no note name the loader fails
    with InvalidNoteName, not UnknownScale, although the scale is unknown
    too. *)
Lemma create_from_json_invalid_key_first :
  ScaleType.of_name "FOO"%string = None
  /\ create_from_json
       {| spec_tempo := None; spec_time_signature := None;
          spec_key := Some "H"%string; spec_octave := None;
          spec_scale := Some "FOO"%string; spec_tracks := None |}
     = Raise (InvalidNoteName "H"%string)
  /\ InvalidNoteName "H"%string <> UnknownScale "FOO"%string.
Proof. repeat split; discriminate. Qed.

(** * Further properties of the engine *)

(** ** Pitch resolution *)

Lemma str_index_bounds x l i :
  Py.str_index x l = Some i -> 0 <= i < Py.len l.
Proof.
  revert i. induction l as [|y l IH]; intros i; simpl; [discriminate|].
  unfold Py.len in *. simpl List.length.
  destruct (String.eqb x y).
  - intros [= <-]. lia.
  - destruct (Py.str_index x l) as [j|]; simpl; [|discriminate].
    intros [= <-]. specialize (IH j eq_refl). lia.
Qed.

(** A pitch that is returned lies in 0..127, whatever the octave; in the
    octaves -1..8 nothing is clamped, so the octave and the position of the
    normalised name in [NOTE_NAMES] can be read back from the pitch. *)
Theorem note_name_to_midi_in_range :
  forall (note_name : string) (octave p : Z),
    note_name_to_midi note_name octave = Ok p ->
    0 <= p <= 127
    /\ (-1 <= octave <= 8 ->
        p / 12 - 1 = octave
        /\ Py.str_index (normalize_note_name note_name) NOTE_NAMES
           = Some (p mod 12)).
Proof.
  intros note_name octave p. unfold note_name_to_midi.
  destruct (Py.str_index (normalize_note_name note_name) NOTE_NAMES)
    as [i|] eqn:Hi; [|discriminate].
  intros [= <-]. apply str_index_bounds in Hi.
  unfold Py.len in Hi. simpl in Hi. unfold clamp_midi.
  split; [lia|]. intros Hoct.
  replace (Z.max 0 (Z.min 127 ((octave + 1) * 12 + i)))
    with (i + (octave + 1) * 12) by lia.
  rewrite Z.div_add, Z.mod_add by lia.
  rewrite Z.div_small, Z.mod_small by lia.
  split; [lia | reflexivity].
Qed.

Lemma note_name_to_midi_in_range_witness :
  note_name_to_midi "F#" 3 = Ok 54
  /\ 0 <= 54 <= 127
  /\ 54 / 12 - 1 = 3.
Proof.
  destruct (note_name_to_midi_in_range "F#" 3 54 eq_refl) as [Hr Hexact].
  split; [reflexivity|]. split; [exact Hr|].
  apply Hexact. lia.
Defined.

Lemma remove_char_app c s t :
  Py.remove_char c (s ++ t)%string
  = (Py.remove_char c s ++ Py.remove_char c t)%string.
Proof.
  induction s as [|a s IH]; simpl; [reflexivity|].
  destruct (Ascii.eqb a c); simpl; now rewrite IH.
Qed.

Lemma remove_m_spaces pad :
  all_space pad = true -> Py.remove_char "m" pad = pad.
Proof.
  induction pad as [|a pad IH]; simpl; [reflexivity|].
  intros H. apply andb_prop in H. destruct H as [Ha Hpad].
  destruct (Ascii.eqb_spec a "m"%char) as [->|_]; [discriminate Ha|].
  now rewrite IH.
Qed.

Lemma lstrip_spaces pad s :
  all_space pad = true -> Py.lstrip (pad ++ s)%string = Py.lstrip s.
Proof.
  induction pad as [|a pad IH]; simpl; [reflexivity|].
  intros H. apply andb_prop in H. destruct H as [-> Hpad]. now apply IH.
Qed.

Lemma rstrip_all_space pad : all_space pad = true -> Py.rstrip pad = ""%string.
Proof.
  induction pad as [|a pad IH]; simpl; [reflexivity|].
  intros H. apply andb_prop in H. destruct H as [Ha Hpad].
  now rewrite IH, Ha.
Qed.

Lemma rstrip_spaces s pad :
  all_space pad = true -> Py.rstrip (s ++ pad)%string = Py.rstrip s.
Proof.
  intros Hpad. induction s as [|a s IH]; simpl.
  - now apply rstrip_all_space.
  - now rewrite IH.
Qed.

Lemma lstrip_all_space pad : all_space pad = true -> Py.lstrip pad = ""%string.
Proof.
  induction pad as [|a pad IH]; simpl; [reflexivity|].
  intros H. apply andb_prop in H. destruct H as [-> Hpad]. now apply IH.
Qed.

Lemma rstrip_lstrip_spaces s pad :
  all_space pad = true ->
  Py.rstrip (Py.lstrip (s ++ pad)%string) = Py.rstrip (Py.lstrip s).
Proof.
  intros Hpad. induction s as [|a s IH].
  - simpl. now rewrite lstrip_all_space.
  - simpl. destruct (Py.is_space a); [exact IH|].
    change (String a (s ++ pad)%string) with (String a s ++ pad)%string.
    now apply rstrip_spaces.
Qed.

(** White space around a note name is ignored: a name padded on both sides
    with characters that [strip] removes resolves like the name itself, to
    the same pitch or the same error. *)
Theorem note_name_to_midi_ignores_padding :
  forall (left right note_name : string) (octave : Z),
    all_space left = true -> all_space right = true ->
    note_name_to_midi (left ++ note_name ++ right)%string octave
    = note_name_to_midi note_name octave.
Proof.
  intros left right note_name octave Hl Hr.
  unfold note_name_to_midi, normalize_note_name, Py.strip.
  rewrite !remove_char_app, (remove_m_spaces left Hl),
    (remove_m_spaces right Hr).
  rewrite lstrip_spaces by exact Hl.
  now rewrite rstrip_lstrip_spaces by exact Hr.
Qed.

Lemma note_name_to_midi_ignores_padding_witness :
  note_name_to_midi "  Bbm " 2 = note_name_to_midi "Bbm" 2.
Proof.
  exact (note_name_to_midi_ignores_padding "  " " " "Bbm" 2 eq_refl eq_refl).
Defined.

(** ** Scale expansion *)

Lemma range_In n o : In o (Py.range n) <-> 0 <= o < n.
Proof.
  unfold Py.range. rewrite in_map_iff. split.
  - intros [k [<- Hk]]. apply in_seq in Hk. lia.
  - intros H. exists (Z.to_nat o). split; [lia|]. apply in_seq. lia.
Qed.

Lemma range_length n : 0 <= n -> Py.len (Py.range n) = n.
Proof.
  intros H. unfold Py.len, Py.range. rewrite length_map, length_seq. lia.
Qed.


(** The expansion holds exactly the pitches root + 12 * octave + offset,
    for an octave below the span and an offset of the scale, that lie in
    0..127: nothing else is added and nothing in range is lost. *)
Theorem get_scale_notes_members :
  forall (root : Z) (scale_type : ScaleType.t) (span x : Z),
    In x (get_scale_notes root scale_type span)
    <-> 0 <= x <= 127
        /\ exists octave offset : Z,
             0 <= octave < span
             /\ In offset (ScaleType.value scale_type)
             /\ x = root + octave * 12 + offset.
Proof.
  intros root scale_type span x.
  rewrite get_scale_notes_filter, filter_In, in_flat_map, in_midi_range_iff.
  unfold octave_notes. split.
  - intros [[octave [Ho Hx]] Hr]. split; [exact Hr|].
    apply in_map_iff in Hx. destruct Hx as [offset [<- Hoff]].
    exists octave, offset. apply range_In in Ho. auto.
  - intros [Hr [octave [offset [Ho [Hoff ->]]]]]. split; [|exact Hr].
    exists octave. split; [now apply range_In|].
    apply in_map_iff. now exists offset.
Qed.

Lemma StronglySorted_lt_app (l1 l2 : list Z) :
  StronglySorted Z.lt l1 -> StronglySorted Z.lt l2 ->
  (forall x y, In x l1 -> In y l2 -> x < y) ->
  StronglySorted Z.lt (l1 ++ l2).
Proof.
  intros S1 S2 H. induction S1 as [|a l1 S1 IH Ha]; simpl.
  - exact S2.
  - constructor.
    + apply IH. intros x y Hx Hy. apply H; [now right | exact Hy].
    + apply Forall_app; split; [exact Ha|].
      apply Forall_forall. intros y Hy. apply H; [now left | exact Hy].
Qed.

Lemma StronglySorted_lt_filter (keep : Z -> bool) (l : list Z) :
  StronglySorted Z.lt l -> StronglySorted Z.lt (filter keep l).
Proof.
  induction 1 as [|a l S IH Ha]; simpl.
  - constructor.
  - destruct (keep a); [|exact IH].
    constructor; [exact IH|].
    apply Forall_forall. intros y Hy. apply filter_In in Hy.
    rewrite Forall_forall in Ha. now apply Ha.
Qed.

Lemma StronglySorted_lt_map_add (c : Z) (l : list Z) :
  StronglySorted Z.lt l ->
  StronglySorted Z.lt (map (fun x => c + x) l).
Proof.
  induction 1 as [|a l S IH Ha]; simpl; constructor; [exact IH|].
  apply Forall_forall. intros y Hy. apply in_map_iff in Hy.
  destruct Hy as [x [<- Hx]]. rewrite Forall_forall in Ha.
  specialize (Ha x Hx). lia.
Qed.

Lemma strictly_sortedb_sound l :
  strictly_sortedb l = true -> StronglySorted Z.lt l.
Proof.
  induction l as [|x r IH]; simpl; intros H.
  - constructor.
  - apply andb_prop in H. destruct H as [Hx Hr].
    constructor; [now apply IH|].
    apply Forall_forall. intros y Hy.
    rewrite forallb_forall in Hx. apply Z.ltb_lt. now apply Hx.
Qed.

Lemma scale_offsets_strict scale_type :
  StronglySorted Z.lt (ScaleType.value scale_type).
Proof. apply strictly_sortedb_sound. destruct scale_type; reflexivity. Qed.

Lemma octaves_strictly_sorted root scale_type (n a : nat) :
  let l := flat_map (octave_notes root scale_type) (map Z.of_nat (seq a n)) in
  StronglySorted Z.lt l /\ Forall (fun x => root + Z.of_nat a * 12 <= x) l.
Proof.
  revert a; induction n as [|n IH]; intros a; simpl.
  - split; constructor.
  - destruct (IH (S a)) as [Ssorted Slow].
    rewrite Forall_forall in Slow.
    split.
    + apply StronglySorted_lt_app; [| exact Ssorted |].
      * unfold octave_notes.
        apply StronglySorted_lt_map_add, scale_offsets_strict.
      * intros x y Hx Hy. apply octave_notes_bounds in Hx.
        specialize (Slow y Hy). lia.
    + apply Forall_app; split; apply Forall_forall; intros x Hx.
      * apply octave_notes_bounds in Hx. lia.
      * specialize (Slow x Hx). lia.
Qed.

(** The expansion is strictly increasing, so no pitch occurs twice: an
    octave of a scale ends below the start of the next one. *)
Theorem get_scale_notes_strictly_increasing :
  forall (root : Z) (scale_type : ScaleType.t) (span : Z),
    StronglySorted Z.lt (get_scale_notes root scale_type span)
    /\ NoDup (get_scale_notes root scale_type span).
Proof.
  intros root scale_type span.
  assert (StronglySorted Z.lt (get_scale_notes root scale_type span)) as H.
  { rewrite get_scale_notes_filter. apply StronglySorted_lt_filter.
    unfold Py.range.
    apply (octaves_strictly_sorted root scale_type (Z.to_nat span) 0). }
  split; [exact H|].
  induction H as [|a l S IH Ha]; constructor; [|exact IH].
  intros Hin. rewrite Forall_forall in Ha. specialize (Ha a Hin). lia.
Qed.

Lemma filter_all_true {A : Type} (keep : A -> bool) (l : list A) :
  (forall x, In x l -> keep x = true) -> filter keep l = l.
Proof.
  induction l as [|a l IH]; simpl; intros H; [reflexivity|].
  rewrite (H a (or_introl eq_refl)). f_equal. apply IH. auto.
Qed.

Lemma length_flat_map_const {A B : Type} (g : A -> list B) (l : list A)
    (n : nat) :
  (forall x, List.length (g x) = n) ->
  List.length (flat_map g l) = (List.length l * n)%nat.
Proof.
  intros H. induction l as [|x l IH]; simpl; [reflexivity|].
  now rewrite length_app, H, IH.
Qed.

(** When the whole span fits below 128 and the root is not negative, no
    candidate is skipped: the expansion has exactly span times the number of
    offsets elements. *)
Theorem get_scale_notes_full_length :
  forall (root : Z) (scale_type : ScaleType.t) (span : Z),
    0 <= root -> 0 <= span -> root + 12 * span <= 128 ->
    Py.len (get_scale_notes root scale_type span)
    = span * Py.len (ScaleType.value scale_type).
Proof.
  intros root scale_type span Hroot Hspan Hfit.
  rewrite get_scale_notes_filter, filter_all_true.
  - unfold Py.len.
    rewrite (length_flat_map_const _ _
               (List.length (ScaleType.value scale_type))).
    + pose proof (range_length span Hspan) as H. unfold Py.len in H. nia.
    + intros octave. unfold octave_notes. apply length_map.
  - intros x Hx. apply in_flat_map in Hx. destruct Hx as [octave [Ho Hx]].
    apply range_In in Ho. apply octave_notes_bounds in Hx.
    apply in_midi_range_iff. lia.
Qed.

Lemma get_scale_notes_full_length_witness :
  Py.len (get_scale_notes 60 ScaleType.MAJOR 3) = 3 * 7.
Proof.
  exact (get_scale_notes_full_length 60 ScaleType.MAJOR 3
           ltac:(lia) ltac:(lia) ltac:(lia)).
Defined.

(** ** Chords *)

Lemma invert_once_raises l x :
  In x (invert_once l) -> exists o j, In o l /\ 0 <= j /\ x = o + 12 * j.
Proof.
  destruct l as [|a r]; [simpl; tauto|]. unfold invert_once.
  intros H. apply (proj1 (sort_In _ _)) in H. destruct H as [<-|H].
  - exists a, 1. split; [now left | lia].
  - exists x, 0. split; [now right | lia].
Qed.

Lemma invert_raises inversion l x :
  In x (invert inversion l) ->
  exists o j, In o l /\ 0 <= j /\ x = o + 12 * j.
Proof.
  unfold invert. destruct (inversion >? 0).
  - generalize (Py.range inversion) as passes. intros passes.
    revert l. induction passes as [|p passes IH]; intros l;
      cbn [fold_left].
    + intros H. exists x, 0. split; [exact H | lia].
    + intros H. apply IH in H. destruct H as [o [j [Ho [Hj ->]]]].
      apply invert_once_raises in Ho.
      destruct Ho as [o' [j' [Ho' [Hj' ->]]]].
      exists o', (j' + j). split; [exact Ho' | lia].
  - intros H. exists x, 0. split; [exact H | lia].
Qed.

(** Whatever the inversion and the doubling, every pitch of a chord lies in
    0..127 and is a tone of the quality raised by a whole number of octaves:
    the chord is never transposed down and never leaves its pitch classes. *)
Theorem create_chord_members :
  forall (root : Z) (quality : ChordQuality.t) (inversion : Z)
         (octave_doubling : bool) (p : Z),
    In p (create_chord root quality inversion octave_doubling) ->
    0 <= p <= 127
    /\ exists offset j : Z,
         In offset (ChordQuality.value quality)
         /\ 0 <= j
         /\ p = root + offset + 12 * j.
Proof.
  intros root quality inversion octave_doubling p.
  rewrite create_chord_unfold, filter_In, in_midi_range_iff.
  intros [Hin Hr]. split; [exact Hr|].
  assert (forall y,
             In y (map (fun interval => root + interval)
                       (invert inversion (ChordQuality.value quality))) ->
             exists offset j,
               In offset (ChordQuality.value quality)
               /\ 0 <= j /\ y = root + offset + 12 * j) as Hmap.
  { intros y Hy. apply in_map_iff in Hy. destruct Hy as [i [<- Hi]].
    apply invert_raises in Hi. destruct Hi as [o [j [Ho [Hj ->]]]].
    exists o, j. split; [exact Ho | lia]. }
  destruct (map (fun interval => root + interval)
                (invert inversion (ChordQuality.value quality)))
    as [|first rest]; [destruct Hin|].
  destruct octave_doubling; [|now apply Hmap].
  apply in_app_or in Hin. destruct Hin as [Hin|[<-|[]]]; [now apply Hmap|].
  destruct (Hmap first (or_introl eq_refl)) as [o [j [Ho [Hj ->]]]].
  exists o, (j + 1). split; [exact Ho | lia].
Qed.

Lemma create_chord_members_witness :
  0 <= 72 <= 127
  /\ exists offset j : Z,
       In offset (ChordQuality.value ChordQuality.MAJOR)
       /\ 0 <= j /\ 72 = 60 + offset + 12 * j.
Proof.
  apply (create_chord_members 60 ChordQuality.MAJOR 1 false 72).
  vm_compute. right; right; left; reflexivity.
Defined.

(** Inverting a chord as many times as it has tones gives the same chord
    one octave higher, for every quality whose tones lie within one octave
    (all but ADD9), with or without doubling. *)
Theorem create_chord_full_cycle :
  forall (root : Z) (quality : ChordQuality.t) (octave_doubling : bool),
    quality <> ChordQuality.ADD9 ->
    create_chord root quality (Py.len (ChordQuality.value quality))
      octave_doubling
    = create_chord (root + 12) quality 0 octave_doubling.
Proof.
  intros root quality octave_doubling Hq. rewrite !create_chord_unfold.
  assert (map (fun interval => root + interval)
              (invert (Py.len (ChordQuality.value quality))
                      (ChordQuality.value quality))
          = map (fun interval => root + 12 + interval)
                (invert 0 (ChordQuality.value quality))) as ->.
  { destruct quality; try congruence; vm_compute invert; simpl;
      repeat (f_equal; try lia). }
  reflexivity.
Qed.

Lemma create_chord_full_cycle_witness :
  create_chord 48 ChordQuality.MINOR7 4 true
  = create_chord 60 ChordQuality.MINOR7 0 true.
Proof.
  apply (create_chord_full_cycle 48 ChordQuality.MINOR7 true). discriminate.
Defined.

(** ** The chord-progression builder: failures and notes *)

Lemma getitem_below l i : i < - Py.len l -> Py.getitem l i = Raise IndexError.
Proof.
  intros Hi. unfold Py.getitem.
  assert (0 <= Py.len l) by (unfold Py.len; lia).
  destruct (Z.ltb_spec i 0) as [_|]; [|lia].
  destruct (Z.leb_spec 0 (i + Py.len l)) as [|_]; [lia|]. reflexivity.
Qed.

Lemma chord_root_outcome root scale_notes degree :
  (- Py.len scale_notes < degree ->
   exists r, chord_root root scale_notes degree = Ok r)
  /\ (degree <= - Py.len scale_notes ->
      chord_root root scale_notes degree = Raise IndexError).
Proof.
  assert (0 <= Py.len scale_notes) as Hlen by (unfold Py.len; lia).
  split; intros Hd.
  - destruct (Z.le_gt_cases 1 degree) as [Hpos|Hneg].
    + now apply chord_root_positive.
    + unfold chord_root.
      destruct (Z.leb_spec degree (Py.len scale_notes)); [|lia].
      destruct (getitem_from_end scale_notes (degree - 1)) as [r [Hr _]];
        [lia|]. now exists r.
  - unfold chord_root.
    destruct (Z.leb_spec degree (Py.len scale_notes)); [|lia].
    apply getitem_below. lia.
Qed.

Lemma progression_chords_ok root scale_type scale_notes progression :
  Forall (fun degree => - Py.len scale_notes < degree) progression ->
  exists chords,
    progression_chords root scale_type scale_notes progression = Ok chords.
Proof.
  induction 1 as [|degree rest Hd _ IH]; simpl; [eauto|].
  unfold chord_of_degree.
  destruct (proj1 (chord_root_outcome root scale_notes degree) Hd) as [r ->].
  destruct IH as [chords ->]. simpl. eauto.
Qed.




Lemma lay_out_notes (P : Note -> Prop) chords dur st :
  Forall P (fst st) ->
  Forall (fun chord => forall t, Forall P (chord_notes chord t dur))
         chords ->
  Forall P (fst (lay_out chords dur st)).
Proof.
  intros Hst Hchords. revert st Hst.
  induction Hchords as [|chord rest Hc _ IH]; intros st Hst; simpl.
  - exact Hst.
  - apply IH. simpl. apply Forall_app. split; [exact Hst | apply Hc].
Qed.

Lemma lay_out_length chords dur st :
  List.length (fst (lay_out chords dur st))
  = (List.length (fst st)
     + list_sum (map (fun chord => List.length chord) chords))%nat.
Proof.
  revert st. induction chords as [|chord rest IH]; intros st; simpl.
  - lia.
  - rewrite IH. simpl. unfold chord_notes.
    rewrite length_app, length_map. lia.
Qed.

Lemma new_Note_fields p start dur vel :
  0 <= vel <= 127 ->
  velocity (new_Note p start dur vel) = vel
  /\ duration (new_Note p start dur vel) = dur
  /\ start_time (new_Note p start dur vel) = start
  /\ 0 <= pitch (new_Note p start dur vel) <= 127
  /\ (0 <= p <= 127 -> pitch (new_Note p start dur vel) = p).
Proof.
  intros Hv. unfold new_Note, Note_post_init, clamp_midi. simpl.
  repeat split; lia.
Qed.

Lemma chord_of_degree_triad root scale_type scale_notes degree chord :
  chord_of_degree root scale_type scale_notes degree = Ok chord ->
  (List.length chord <= 3)%nat.
Proof.
  unfold chord_of_degree.
  destruct (chord_root root scale_notes degree) as [r|]; [|discriminate].
  simpl. intros [= <-]. rewrite create_chord_unfold.
  etransitivity; [apply filter_length_le|].
  unfold invert. simpl.
  destruct (harmonize_degree degree _) eqn:E; simpl; try lia;
    exfalso; revert E; unfold harmonize_degree;
    repeat match goal with
           | |- context [if ?c then _ else _] => destruct c
           end; discriminate.
Qed.

Lemma progression_chords_triads root scale_type scale_notes progression
    chords :
  progression_chords root scale_type scale_notes progression = Ok chords ->
  (list_sum (map (fun chord => List.length chord) chords)
   <= 3 * List.length progression)%nat.
Proof.
  revert chords. induction progression as [|degree rest IH];
    intros chords; simpl.
  - intros [= <-]. simpl. lia.
  - destruct (chord_of_degree root scale_type scale_notes degree)
      as [chord|] eqn:Hc; [|discriminate]. simpl.
    destruct (progression_chords root scale_type scale_notes rest)
      as [more|]; [|discriminate]. simpl.
    intros [= <-]. simpl. apply chord_of_degree_triad in Hc.
    specialize (IH more eq_refl). lia.
Qed.

(** Every note of a chord-progression track has velocity 70, the given
    duration and a pitch in 0..127, and a chord never has more than three
    notes: the track holds at most three notes per degree. *)
Theorem create_chord_progression_notes :
  forall (root : Z) (scale_type : ScaleType.t) (progression : list Z)
         (dur : float) (track : Track),
    create_chord_progression root scale_type progression dur = Ok track ->
    Forall (fun n => velocity n = 70 /\ duration n = dur
                     /\ 0 <= pitch n <= 127) (notes track)
    /\ Py.len (notes track) <= 3 * Py.len progression.
Proof.
  intros root scale_type progression dur track Htrack.
  unfold create_chord_progression, progression_loop in Htrack.
  rewrite progression_loop_chords in Htrack.
  destruct (progression_chords root scale_type
              (get_scale_notes root scale_type 3) progression)
    as [chords|] eqn:Hc; [|discriminate].
  simpl in Htrack. injection Htrack as <-. cbn [notes]. split.
  - apply lay_out_notes; [constructor|].
    apply Forall_forall. intros chord _.
    assert (forall t,
               Forall (fun n => velocity n = 70 /\ duration n = dur
                                /\ 0 <= pitch n <= 127)
                      (chord_notes chord t dur)) as H.
    { intros t. unfold chord_notes. apply Forall_forall. intros n Hn.
      apply in_map_iff in Hn. destruct Hn as [p [<- _]].
      destruct (new_Note_fields p t dur 70) as [? [? [? [? ?]]]]; [lia|].
      auto. }
    exact H.
  - unfold Py.len. rewrite lay_out_length. cbn [fst List.length].
    apply progression_chords_triads in Hc. lia.
Qed.

Lemma create_chord_progression_notes_witness :
  exists track,
    create_chord_progression 125 ScaleType.MAJOR [1; 2; 9] 4 = Ok track
    /\ Py.len (notes track) <= 3 * 3.
Proof.
  eexists. split; [reflexivity|].
  apply (create_chord_progression_notes 125 ScaleType.MAJOR [1; 2; 9] 4 _
           eq_refl).
Defined.

(** ** The melody builder: failures, note count, wrap-around *)






(** Degrees beyond the expansion wrap around: a positive degree takes the
    scale note at position (degree - 1) mod len and raises it by 12
    semitones for each full turn, so degree + len sounds 12 semitones above
    degree (before the pitch is clamped into 0..127). *)
Theorem create_melody_wraps_by_octave :
  forall (root : Z) (scale_type : ScaleType.t) (degree : Z)
         (dur rest : float) (start_octave : Z),
    let scale_notes := get_scale_notes root scale_type 3 in
    scale_notes <> [] -> 0 < degree ->
    exists x : Z,
      nth_error scale_notes
        (Z.to_nat ((degree - 1) mod Py.len scale_notes)) = Some x
      /\ create_melody root scale_type [(degree, dur, rest)] start_octave
         = Ok {| name := "Melody"; channel := 1;
                 notes := [new_Note
                             (x + (degree - 1) / Py.len scale_notes * 12)
                             0 dur 85];
                 program := 81 |}
      /\ create_melody root scale_type
           [(degree + Py.len scale_notes, dur, rest)] start_octave
         = Ok {| name := "Melody"; channel := 1;
                 notes := [new_Note
                             (x + (degree - 1) / Py.len scale_notes * 12
                              + 12)
                             0 dur 85];
                 program := 81 |}.
Proof.
  intros root scale_type degree dur rest start_octave scale_notes Hne Hd.
  assert (0 < Py.len scale_notes) as Hlen.
  { unfold Py.len. destruct scale_notes; [congruence | simpl; lia]. }
  destruct (melody_body_positive scale_notes [] 0%float degree dur rest
              Hne Hd) as [x [Hx H1]].
  destruct (melody_body_positive scale_notes [] 0%float
              (degree + Py.len scale_notes) dur rest Hne ltac:(lia))
    as [y [Hy H2]].
  replace (degree + Py.len scale_notes - 1)
    with (degree - 1 + 1 * Py.len scale_notes) in Hy, H2 by lia.
  rewrite Z.mod_add in Hy by lia. rewrite Z.div_add in H2 by lia.
  assert (y = x) as -> by congruence.
  replace (((degree - 1) / Py.len scale_notes + 1) * 12)
    with ((degree - 1) / Py.len scale_notes * 12 + 12) in H2 by lia.
  rewrite Z.add_assoc in H2.
  exists x. split; [exact Hx|].
  unfold create_melody, melody_loop. fold scale_notes.
  rewrite !for_each_cons, H1, H2. split; reflexivity.
Qed.

Lemma create_melody_wraps_by_octave_witness :
  exists x : Z,
    create_melody 60 ScaleType.PENTATONIC_MAJOR [(2, 1%float, 0%float)] 5
    = Ok {| name := "Melody"; channel := 1;
            notes := [new_Note x 0 1 85]; program := 81 |}
    /\ create_melody 60 ScaleType.PENTATONIC_MAJOR
         [(2 + 15, 1%float, 0%float)] 5
       = Ok {| name := "Melody"; channel := 1;
               notes := [new_Note (x + 12) 0 1 85]; program := 81 |}.
Proof.
  destruct (create_melody_wraps_by_octave 60 ScaleType.PENTATONIC_MAJOR 2
              1%float 0%float 5) as [x [_ [H1 H2]]].
  - discriminate.
  - lia.
  - eexists. split; [exact H1 | exact H2].
Defined.

(** ** The bass-line builder *)


Lemma bass_for_each bass_notes pattern notes current_time :
  exists emitted final_time,
    for_each (bass_body bass_notes) pattern (notes, current_time)
    = Ok (notes ++ emitted, final_time)
    /\ List.length emitted
       = List.length (filter (bass_step_sounds bass_notes) pattern)
    /\ Forall (fun n => velocity n = 90
                        /\ exists b, In b bass_notes
                                     /\ pitch n = clamp_midi b) emitted.
Proof.
  revert notes current_time.
  induction pattern as [|[degree dur] pattern IH]; intros notes current_time.
  - exists [], current_time. simpl. rewrite app_nil_r. auto.
  - rewrite for_each_cons. unfold bass_body at 1.
    unfold bass_step_sounds at 1. cbn [filter fst].
    destruct ((degree >? 0) && (degree <=? Py.len bass_notes)) eqn:Hsound.
    + apply andb_prop in Hsound. destruct Hsound as [Hpos Hle].
      destruct (getitem_in_range bass_notes (degree - 1)) as [b [-> Hb]];
        [lia|].
      cbv beta iota delta [bind].
      destruct (IH (notes ++ [new_Note b current_time dur 90])
                   (current_time + dur)%float)
        as [emitted [final_time [Hrun [Hlen Hnotes]]]].
      rewrite Hrun, <- app_assoc.
      eexists (_ :: emitted), final_time. split; [reflexivity|].
      split; [simpl; now rewrite Hlen|].
      constructor; [|exact Hnotes].
      split; [reflexivity|]. exists b. split; [|reflexivity].
      eapply nth_error_In, Hb.
    + cbv beta iota delta [bind]. apply IH.
Qed.


(** ** The drum-pattern builder *)

Lemma lookup_In {V : Type} (k : string) (d : list (string * V)) (v : V) :
  Py.lookup k d = Some v -> In v (map snd d).
Proof.
  induction d as [|[k' v'] d IH]; simpl; [discriminate|].
  destruct (String.eqb k k'); [intros [= <-]; now left|].
  intros H. right. now apply IH.
Qed.

Lemma int_to_float_in_range i :
  Z.abs i < float_overflow_threshold -> int_to_float i = Ok (float_of_Z i).
Proof.
  intros H. unfold int_to_float.
  destruct (Z.leb_spec float_overflow_threshold (Z.abs i)); [lia|].
  reflexivity.
Qed.

Lemma int_to_float_overflow i :
  float_overflow_threshold <= Z.abs i -> int_to_float i = Raise OverflowError.
Proof.
  intros H. unfold int_to_float.
  destruct (Z.leb_spec float_overflow_threshold (Z.abs i)); [|lia].
  reflexivity.
Qed.

Lemma recognised_hits_cons drum hits pattern :
  recognised_hits ((drum, hits) :: pattern)
  = match Py.lookup drum DRUM_MAP with
    | Some _ => Py.len hits
    | None => 0
    end + recognised_hits pattern.
Proof.
  unfold recognised_hits, Py.len. cbn [flat_map fst snd].
  rewrite length_app. destruct (Py.lookup drum DRUM_MAP); simpl; lia.
Qed.

Lemma recognised_hits_nonneg pattern : 0 <= recognised_hits pattern.
Proof. unfold recognised_hits, Py.len. lia. Qed.

Lemma DRUM_MAP_pitches drum pitch :
  Py.lookup drum DRUM_MAP = Some pitch -> 0 <= pitch <= 127.
Proof.
  intros H. apply lookup_In in H.
  assert (forallb in_midi_range (map snd DRUM_MAP) = true) as Hall
      by reflexivity.
  rewrite forallb_forall in Hall. now apply in_midi_range_iff, Hall.
Qed.

Lemma drum_hits_ok pitch offset f hits notes :
  int_to_float offset = Ok f ->
  for_each (drum_hit_body pitch offset) hits notes
  = Ok (notes
        ++ map (fun hit_time =>
                  new_Note pitch (f + hit_time) 0x1.999999999999ap-4 95)
               hits).
Proof.
  intros Hf. revert notes. induction hits as [|h hits IH]; intros notes.
  - simpl. now rewrite app_nil_r.
  - rewrite for_each_cons. unfold drum_hit_body at 1, int_add_float.
    rewrite Hf. cbv beta iota delta [bind]. rewrite IH, <- app_assoc.
    reflexivity.
Qed.

Lemma drum_hits_raise pitch offset e h hits notes :
  int_to_float offset = Raise e ->
  for_each (drum_hit_body pitch offset) (h :: hits) notes = Raise e.
Proof.
  intros Hf. rewrite for_each_cons. unfold drum_hit_body at 1, int_add_float.
  now rewrite Hf.
Qed.

(** One measure: the notes of the hits on known drums, unless the offset
    cannot become a float and there is such a hit. *)
Lemma drum_items_ok offset pattern notes :
  (exists f, int_to_float offset = Ok f) \/ recognised_hits pattern = 0 ->
  exists emitted,
    for_each (drum_item_body offset) pattern notes = Ok (notes ++ emitted)
    /\ Py.len emitted = recognised_hits pattern
    /\ Forall (fun n => velocity n = 95
                        /\ exists drum,
                             Py.lookup drum DRUM_MAP = Some (pitch n))
              emitted.
Proof.
  revert notes. induction pattern as [|[drum hits] pattern IH];
    intros notes H.
  - exists []. simpl. rewrite app_nil_r. repeat split. constructor.
  - rewrite for_each_cons, recognised_hits_cons. unfold drum_item_body at 1.
    pose proof (recognised_hits_nonneg pattern) as Hnn.
    assert ((exists f, int_to_float offset = Ok f)
            \/ recognised_hits pattern = 0) as Htail.
    { destruct H as [H|H]; [now left|]. right.
      rewrite recognised_hits_cons in H.
      destruct (Py.lookup drum DRUM_MAP); unfold Py.len in H; lia. }
    destruct (Py.lookup drum DRUM_MAP) as [p|] eqn:Hd.
    + assert (exists made,
                 for_each (drum_hit_body p offset) hits notes
                 = Ok (notes ++ made)
                 /\ Py.len made = Py.len hits
                 /\ Forall (fun n => velocity n = 95
                                     /\ exists drum,
                                          Py.lookup drum DRUM_MAP
                                          = Some (pitch n)) made)
        as [made [Hmade [Hlen Hnotes]]].
      { destruct H as [[f Hf]|H].
        - rewrite (drum_hits_ok p offset f hits notes Hf).
          eexists. split; [reflexivity|]. unfold Py.len.
          rewrite length_map. split; [reflexivity|].
          apply Forall_forall. intros n Hn. apply in_map_iff in Hn.
          destruct Hn as [hit [<- _]].
          pose proof (DRUM_MAP_pitches drum p Hd) as Hr.
          destruct (new_Note_fields p (f + hit)%float
                      0x1.999999999999ap-4%float 95)
            as [Hv [_ [_ [_ Hp]]]]; [lia|].
          split; [exact Hv|]. exists drum. now rewrite Hp.
        - rewrite recognised_hits_cons, Hd in H.
          destruct hits as [|h hits];
            [|unfold Py.len in H; cbn [List.length] in H; lia].
          exists []. simpl. rewrite app_nil_r. repeat split. constructor. }
      rewrite Hmade. cbv beta iota delta [bind].
      destruct (IH (notes ++ made) Htail) as [emitted [-> [Hl Hn]]].
      exists (made ++ emitted). rewrite app_assoc.
      split; [reflexivity|]. split.
      * unfold Py.len in *. rewrite length_app. lia.
      * apply Forall_app. split; assumption.
    + cbv beta iota delta [bind].
      destruct (IH notes Htail) as [emitted [-> [Hl Hn]]].
      exists emitted. repeat split; [lia | exact Hn].
Qed.

Lemma drum_items_raise offset pattern notes e :
  int_to_float offset = Raise e ->
  0 < recognised_hits pattern ->
  for_each (drum_item_body offset) pattern notes = Raise e.
Proof.
  intros Hf. revert notes.
  induction pattern as [|[drum hits] pattern IH]; intros notes Hhits.
  - unfold recognised_hits, Py.len in Hhits. simpl in Hhits. lia.
  - rewrite for_each_cons. unfold drum_item_body at 1.
    rewrite recognised_hits_cons in Hhits.
    destruct (Py.lookup drum DRUM_MAP) as [pitch|].
    + destruct hits as [|h hits].
      * simpl. apply IH. unfold Py.len in Hhits.
        cbn [List.length] in Hhits. lia.
      * now rewrite (drum_hits_raise pitch offset e h hits notes Hf).
    + cbv beta iota delta [bind]. apply IH. lia.
Qed.

Lemma drum_measures_ok beats pattern measures notes :
  recognised_hits pattern = 0
  \/ Forall (fun measure => Z.abs (measure * beats) < float_overflow_threshold)
            measures ->
  exists emitted,
    for_each (drum_measure_body beats pattern) measures notes
    = Ok (notes ++ emitted)
    /\ Py.len emitted = Py.len measures * recognised_hits pattern
    /\ Forall (fun n => velocity n = 95
                        /\ exists drum,
                             Py.lookup drum DRUM_MAP = Some (pitch n))
              emitted.
Proof.
  revert notes. induction measures as [|m measures IH]; intros notes H.
  - exists []. simpl. rewrite app_nil_r. unfold Py.len. simpl.
    repeat split. constructor.
  - rewrite for_each_cons. unfold drum_measure_body at 1.
    destruct (drum_items_ok (m * beats) pattern notes)
      as [made [-> [Hlen Hnotes]]].
    { destruct H as [H|H]; [now right|]. left. inversion H; subst.
      eexists. now apply int_to_float_in_range. }
    cbv beta iota delta [bind].
    destruct (IH (notes ++ made)) as [emitted [-> [Hl Hn]]].
    { destruct H as [H|H]; [now left|]. right. now inversion H. }
    exists (made ++ emitted). rewrite app_assoc.
    split; [reflexivity|]. split.
    + unfold Py.len in *. rewrite length_app. cbn [List.length]. lia.
    + apply Forall_app. split; assumption.
Qed.

Lemma drum_measures_raise beats pattern measures notes :
  0 < recognised_hits pattern ->
  Exists (fun measure => float_overflow_threshold <= Z.abs (measure * beats))
         measures ->
  for_each (drum_measure_body beats pattern) measures notes
  = Raise OverflowError.
Proof.
  intros Hhits. revert notes.
  induction measures as [|m measures IH]; intros notes H; [inversion H|].
  rewrite for_each_cons. unfold drum_measure_body at 1.
  destruct (Z.le_gt_cases float_overflow_threshold (Z.abs (m * beats)))
    as [Hbig|Hsmall].
  - now rewrite (drum_items_raise (m * beats) pattern notes OverflowError
                   (int_to_float_overflow _ Hbig) Hhits).
  - destruct (drum_items_ok (m * beats) pattern notes)
      as [made [-> _]].
    { left. eexists. apply int_to_float_in_range. lia. }
    cbv beta iota delta [bind]. apply IH.
    inversion H as [? ? Hhead|? ? Htail]; subst; [lia | exact Htail].
Qed.

Lemma create_drum_pattern_Ok self pattern measures beats rest notes :
  time_signature self = beats :: rest ->
  for_each (drum_measure_body beats pattern) (Py.range measures) []
  = Ok notes ->
  create_drum_pattern self pattern measures
  = Ok {| name := "Drums"; channel := 9; notes := notes; program := 0 |}.
Proof.
  intros Hts Hloop. unfold create_drum_pattern. rewrite Hts.
  change (Py.getitem (beats :: rest) 0) with (Ok beats).
  cbv beta iota delta [bind]. now rewrite Hloop.
Qed.

Lemma range_offsets_in_range beats measures :
  Z.abs beats * Z.max 0 (measures - 1) < float_overflow_threshold ->
  Forall (fun measure => Z.abs (measure * beats) < float_overflow_threshold)
         (Py.range measures).
Proof.
  intros H. apply Forall_forall. intros m Hm. apply range_In in Hm.
  rewrite Z.abs_mul, (Z.abs_eq m) by lia.
  pose proof (Z.abs_nonneg beats). nia.
Qed.

(** The drum builder raises IndexError on an empty time signature.  With a
    time signature it returns a track on channel 9 with program 0 whenever
    no hit falls on a drum of [DRUM_MAP] or every offset measure * beats can
    become a float; the track then holds, for every measure, one note per
    hit of every drum named in [DRUM_MAP] (drums of other names add nothing,
    a measure count of zero or less gives no note), each of velocity 95 and
    the table's pitch of a drum.  When there is such a hit and the offset of
    some measure is too large for a float, it raises OverflowError. *)
Theorem create_drum_pattern_outcome :
  forall (self : MIDIComposer) (pattern : list (string * list float))
         (measures : Z),
    (time_signature self = [] ->
     create_drum_pattern self pattern measures = Raise IndexError)
    /\ (forall beats rest,
          time_signature self = beats :: rest ->
          recognised_hits pattern = 0
          \/ Z.abs beats * Z.max 0 (measures - 1) < float_overflow_threshold ->
          exists track,
            create_drum_pattern self pattern measures = Ok track
            /\ name track = "Drums"%string
            /\ channel track = 9 /\ program track = 0
            /\ Py.len (notes track)
               = Z.max 0 measures * recognised_hits pattern
            /\ Forall (fun n => velocity n = 95
                                /\ exists drum,
                                     Py.lookup drum DRUM_MAP
                                     = Some (pitch n))
                      (notes track))
    /\ (forall beats rest,
          time_signature self = beats :: rest ->
          0 < recognised_hits pattern ->
          (exists measure,
              0 <= measure < measures
              /\ float_overflow_threshold <= Z.abs (measure * beats)) ->
          create_drum_pattern self pattern measures = Raise OverflowError).
Proof.
  intros self pattern measures. split; [|split].
  - intros Hts. unfold create_drum_pattern. now rewrite Hts.
  - intros beats rest Hts Hfits.
    destruct (drum_measures_ok beats pattern (Py.range measures) [])
      as [emitted [Hloop [Hlen Hnotes]]].
    { destruct Hfits as [H|H]; [now left|]. right.
      now apply range_offsets_in_range. }
    rewrite (create_drum_pattern_Ok self pattern measures beats rest
               _ Hts Hloop).
    eexists. split; [reflexivity|]. cbn [name channel program notes app].
    repeat split; [|exact Hnotes].
    rewrite Hlen. unfold Py.len, Py.range.
    rewrite length_map, length_seq. lia.
  - intros beats rest Hts Hhits [measure [Hm Hbig]].
    unfold create_drum_pattern. rewrite Hts.
    change (Py.getitem (beats :: rest) 0) with (Ok beats).
    cbv beta iota delta [bind].
    rewrite drum_measures_raise; [reflexivity | exact Hhits |].
    apply Exists_exists. exists measure. split; [|exact Hbig].
    now apply range_In.
Qed.

Lemma create_drum_pattern_outcome_witness :
  (exists track,
      create_drum_pattern (new_MIDIComposer 120 [4; 4])
        [("kick"%string, [0%float; 2%float]);
         ("cowbell"%string, [1%float])] 2 = Ok track
      /\ Py.len (notes track) = 4)
  /\ create_drum_pattern (new_MIDIComposer 120 [10 ^ 400; 4])
       [("kick"%string, [0.5%float])] 2 = Raise OverflowError.
Proof.
  destruct (create_drum_pattern_outcome (new_MIDIComposer 120 [4; 4])
              [("kick"%string, [0%float; 2%float]);
               ("cowbell"%string, [1%float])] 2) as [_ [Hok _]].
  destruct (create_drum_pattern_outcome (new_MIDIComposer 120 [10 ^ 400; 4])
              [("kick"%string, [0.5%float])] 2) as [_ [_ Hbad]].
  split.
  - destruct (Hok 4 [4] eq_refl) as [track [Ht [_ [_ [_ [Hlen _]]]]]].
    + right. reflexivity.
    + exists track. split; [exact Ht | exact Hlen].
  - apply (Hbad (10 ^ 400) [4] eq_refl).
    + reflexivity.
    + exists 1. split; [lia|]. apply Z.leb_le. reflexivity.
Defined.

(** ** The loader: what it builds *)

Lemma new_Note_valid p start dur vel : valid_note (new_Note p start dur vel).
Proof.
  unfold valid_note, new_Note, Note_post_init, clamp_midi. simpl. lia.
Qed.

Lemma for_each_invariant {A S : Type} (P : S -> Prop)
    (body : S -> A -> result S) (l : list A) (s s' : S) :
  (forall s x s', P s -> body s x = Ok s' -> P s') ->
  P s -> for_each body l s = Ok s' -> P s'.
Proof.
  intros Hbody. revert s. induction l as [|x l IH]; intros s Hs; simpl.
  - now intros [= <-].
  - destruct (body s x) as [s1|] eqn:E; [|discriminate]. simpl.
    apply IH. eapply Hbody; eauto.
Qed.

Lemma INSTRUMENTS_programs name p :
  Py.lookup name INSTRUMENTS = Some p -> 0 <= p <= 127.
Proof.
  intros H. apply lookup_In in H.
  assert (forallb in_midi_range (map snd INSTRUMENTS) = true) as Hall
      by reflexivity.
  rewrite forallb_forall in Hall. now apply in_midi_range_iff, Hall.
Qed.

Lemma INSTRUMENTS_item_program key p :
  INSTRUMENTS_item key = Ok p -> 0 <= p <= 127.
Proof.
  unfold INSTRUMENTS_item.
  destruct (Py.lookup key INSTRUMENTS) as [q|] eqn:E; [|discriminate].
  intros [= <-]. eapply INSTRUMENTS_programs, E.
Qed.

Lemma assign_instrument_track instrument fallback track track' :
  assign_instrument instrument fallback track = Ok track' ->
  name track' = name track /\ channel track' = channel track
  /\ notes track' = notes track
  /\ (0 <= program track <= 127 -> 0 <= program track' <= 127).
Proof.
  unfold assign_instrument. destruct instrument as [i|].
  - destruct (INSTRUMENTS_item fallback) as [default|] eqn:E;
      [|discriminate].
    assert (0 <= get (Py.lookup i INSTRUMENTS) default <= 127) as Hq.
    { destruct (Py.lookup i INSTRUMENTS) as [p|] eqn:Ei; unfold get.
      - apply (INSTRUMENTS_programs i p Ei).
      - apply (INSTRUMENTS_item_program fallback default E). }
    cbv beta iota delta [bind].
    revert Hq. generalize (get (Py.lookup i INSTRUMENTS) default) as q.
    intros q Hq. intros [= <-].
    unfold set_program. cbn [name channel notes program].
    repeat split; try reflexivity; lia.
  - intros [= <-]. auto.
Qed.

Lemma create_chord_progression_track root scale_type progression dur track :
  create_chord_progression root scale_type progression dur = Ok track ->
  name track = "Chord Progression"%string /\ channel track = 0
  /\ program track = 4 /\ Forall valid_note (notes track).
Proof.
  unfold create_chord_progression, progression_loop.
  rewrite progression_loop_chords.
  destruct (progression_chords _ _ _ _) as [chords|]; [|discriminate].
  simpl. intros [= <-]. simpl. repeat split.
  apply lay_out_notes; [constructor|].
  apply Forall_forall. intros chord _ t. unfold chord_notes.
  apply Forall_forall. intros n Hn. apply in_map_iff in Hn.
  destruct Hn as [p [<- _]]. apply new_Note_valid.
Qed.

Lemma Ok_inj {A : Type} (a b : A) : Ok a = Ok b -> a = b.
Proof. now intros [= ->]. Qed.

Lemma bind_Ok {A B : Type} (r : result A) (k : A -> result B) (b : B) :
  bind r k = Ok b -> exists a, r = Ok a /\ k a = Ok b.
Proof. destruct r as [a|]; simpl; [eauto | discriminate]. Qed.

Lemma melody_body_valid scale_notes st step st' :
  Forall valid_note (fst st) ->
  melody_body scale_notes st step = Ok st' ->
  Forall valid_note (fst st').
Proof.
  destruct st as [notes current_time]. destruct step as [[degree dur] rest].
  unfold melody_body. intros Hst H.
  apply bind_Ok in H. destruct H as [notes' [Hnotes [= <-]]]. simpl.
  destruct (degree >? 0); [|now injection Hnotes as <-].
  apply bind_Ok in Hnotes. destruct Hnotes as [i [_ Hnotes]].
  apply bind_Ok in Hnotes. destruct Hnotes as [q [_ Hnotes]].
  apply bind_Ok in Hnotes. destruct Hnotes as [x [_ [= <-]]].
  apply Forall_app. split; [exact Hst|].
  repeat constructor; apply new_Note_valid.
Qed.

Lemma create_melody_track root scale_type pattern start_octave track :
  create_melody root scale_type pattern start_octave = Ok track ->
  name track = "Melody"%string /\ channel track = 1
  /\ program track = 81 /\ Forall valid_note (notes track).
Proof.
  unfold create_melody, melody_loop. intros H.
  apply bind_Ok in H. destruct H as [st [Hst H]]. simpl in H.
  injection H as <-. simpl. repeat split.
  eapply (for_each_invariant (fun st => Forall valid_note (fst st)));
    [|
     | exact Hst].
  - intros s x s'. apply melody_body_valid.
  - constructor.
Qed.

Lemma bass_body_valid bass_notes st step st' :
  Forall valid_note (fst st) ->
  bass_body bass_notes st step = Ok st' ->
  Forall valid_note (fst st').
Proof.
  destruct st as [notes current_time]. destruct step as [degree dur].
  unfold bass_body. intros Hst H.
  apply bind_Ok in H. destruct H as [notes' [Hnotes [= <-]]]. simpl.
  destruct ((degree >? 0) && (degree <=? Py.len bass_notes));
    [|now injection Hnotes as <-].
  apply bind_Ok in Hnotes. destruct Hnotes as [x [_ [= <-]]].
  apply Forall_app. split; [exact Hst|].
  repeat constructor; apply new_Note_valid.
Qed.

Lemma create_bass_line_track root scale_type pattern octave track :
  create_bass_line root scale_type pattern octave = Ok track ->
  name track = "Bass"%string /\ channel track = 2
  /\ program track = 33 /\ Forall valid_note (notes track).
Proof.
  unfold create_bass_line. intros H.
  apply bind_Ok in H. destruct H as [st [Hst H]]. simpl in H.
  injection H as <-. simpl. repeat split.
  eapply (for_each_invariant (fun st => Forall valid_note (fst st)));
    [|
     | exact Hst].
  - intros s x s'. apply bass_body_valid.
  - constructor.
Qed.

Lemma drum_measure_body_valid beats pattern notes measure notes' :
  Forall valid_note notes ->
  drum_measure_body beats pattern notes measure = Ok notes' ->
  Forall valid_note notes'.
Proof.
  unfold drum_measure_body. intros Hnotes H.
  eapply (for_each_invariant (Forall valid_note)); [| exact Hnotes | exact H].
  clear. intros notes [drum hits] notes' Hnotes H. unfold drum_item_body in H.
  destruct (Py.lookup drum DRUM_MAP) as [pitch|];
    [|now apply Ok_inj in H; subst].
  eapply (for_each_invariant (Forall valid_note)); [| exact Hnotes | exact H].
  clear. intros notes hit notes' Hnotes H. unfold drum_hit_body in H.
  apply bind_Ok in H. destruct H as [start [_ H]].
  apply Ok_inj in H. subst notes'.
  apply Forall_app. split; [exact Hnotes|].
  repeat constructor; apply new_Note_valid.
Qed.

Lemma create_drum_pattern_track self pattern measures track :
  create_drum_pattern self pattern measures = Ok track ->
  name track = "Drums"%string /\ channel track = 9
  /\ program track = 0 /\ Forall valid_note (notes track).
Proof.
  unfold create_drum_pattern. intros H.
  apply bind_Ok in H. destruct H as [beats [_ H]].
  apply bind_Ok in H. destruct H as [made [Hloop H]].
  apply Ok_inj in H. subst track. cbn [name channel program notes].
  repeat split.
  eapply (for_each_invariant (Forall valid_note)); [| | exact Hloop].
  - intros s x s'. apply drum_measure_body_valid.
  - constructor.
Qed.

(** What one pass of the loader's loop yields. *)
Lemma build_track_built composer root scale_type ts r :
  build_track composer root scale_type ts = Ok r ->
  match r with
  | Some track =>
      recognised ts = true
      /\ name track = built_name ts
      /\ channel track = built_channel ts
      /\ valid_track track
  | None => recognised ts = false
  end.
Proof.
  destruct ts as [progression dur instrument | pattern octave instrument
                 | pattern octave instrument | pattern measures |];
    simpl; intros H.
  - apply bind_Ok in H. destruct H as [prog [_ H]].
    apply bind_Ok in H. destruct H as [t [Ht H]].
    apply bind_Ok in H. destruct H as [t' [Ht' [= <-]]].
    apply create_chord_progression_track in Ht.
    destruct Ht as [Hn [Hc [Hp Hv]]].
    apply assign_instrument_track in Ht'.
    destruct Ht' as [Hn' [Hc' [Hnotes Hp']]].
    unfold valid_track. rewrite Hn', Hc', Hnotes, Hn, Hc.
    repeat split; try lia; try exact Hv; apply Hp'; lia.
  - apply bind_Ok in H. destruct H as [pat [_ H]].
    apply bind_Ok in H. destruct H as [t [Ht H]].
    apply bind_Ok in H. destruct H as [t' [Ht' [= <-]]].
    apply create_melody_track in Ht.
    destruct Ht as [Hn [Hc [Hp Hv]]].
    apply assign_instrument_track in Ht'.
    destruct Ht' as [Hn' [Hc' [Hnotes Hp']]].
    unfold valid_track. rewrite Hn', Hc', Hnotes, Hn, Hc.
    repeat split; try lia; try exact Hv; apply Hp'; lia.
  - apply bind_Ok in H. destruct H as [pat [_ H]].
    apply bind_Ok in H. destruct H as [t [Ht H]].
    apply bind_Ok in H. destruct H as [t' [Ht' [= <-]]].
    apply create_bass_line_track in Ht.
    destruct Ht as [Hn [Hc [Hp Hv]]].
    apply assign_instrument_track in Ht'.
    destruct Ht' as [Hn' [Hc' [Hnotes Hp']]].
    unfold valid_track. rewrite Hn', Hc', Hnotes, Hn, Hc.
    repeat split; try lia; try exact Hv; apply Hp'; lia.
  - apply bind_Ok in H. destruct H as [pat [_ H]].
    apply bind_Ok in H. destruct H as [t [Ht [= <-]]].
    apply create_drum_pattern_track in Ht.
    destruct Ht as [Hn [Hc [Hp Hv]]].
    unfold valid_track. rewrite Hn, Hc, Hp.
    repeat split; try lia; exact Hv.
  - now injection H as <-.
Qed.

Lemma load_tracks_returned root scale_type specs composer composer' :
  load_tracks root scale_type specs composer = Returned composer' ->
  tempo composer' = tempo composer
  /\ time_signature composer' = time_signature composer
  /\ exists built,
       tracks composer' = tracks composer ++ built
       /\ map name built = map built_name (filter recognised specs)
       /\ map channel built = map built_channel (filter recognised specs)
       /\ Forall valid_track built.
Proof.
  revert composer. induction specs as [|ts specs IH]; intros composer; simpl.
  - intros [= <-]. repeat split. exists []. rewrite app_nil_r.
    repeat split; constructor.
  - destruct (build_track composer root scale_type ts) as [[track|]|] eqn:E;
      [| |discriminate].
    + intros H. apply IH in H.
      destruct H as [Ht [Hs [built [Hb [Hn [Hc Hv]]]]]].
      apply build_track_built in E. destruct E as [-> [En [Ec Ev]]].
      simpl in *. repeat split; [exact Ht | exact Hs |].
      exists (track :: built). rewrite Hb, <- app_assoc. simpl.
      rewrite Hn, Hc, En, Ec. repeat split. now constructor.
    + intros H. apply IH in H.
      apply build_track_built in E. now rewrite E.
Qed.

(** A composition the loader returns carries the tempo and time signature
    of the document (120 and 4/4 when absent) and exactly one track per
    descriptor of a known type, in the order of the descriptors, with the
    name and channel of its builder; descriptors of other types are
    skipped. *)
Theorem create_from_json_tracks_in_order :
  forall (data : composition_spec) (composer : MIDIComposer),
    create_from_json data = Ok composer ->
    tempo composer = get (spec_tempo data) 120
    /\ time_signature composer = get (spec_time_signature data) [4; 4]
    /\ map name (tracks composer)
       = map built_name (filter recognised (get (spec_tracks data) []))
    /\ map channel (tracks composer)
       = map built_channel (filter recognised (get (spec_tracks data) [])).
Proof.
  intros data composer. unfold create_from_json, run_create_from_json.
  destruct (note_name_to_midi _ _) as [root|]; [|discriminate].
  destruct (ScaleType.of_name _) as [scale_type|]; [|discriminate].
  destruct (load_tracks _ _ _ _) as [c|] eqn:E; [|discriminate].
  intros [= <-]. apply load_tracks_returned in E.
  destruct E as [Ht [Hs [built [Hb [Hn [Hc _]]]]]].
  simpl in *. rewrite Hb. auto.
Qed.

(** Every track of a composition the loader returns is fit for a MIDI sink:
    its channel is one of the 16, its program lies in 0..127, and every note
    has pitch and velocity in 0..127. *)
Theorem create_from_json_tracks_valid :
  forall (data : composition_spec) (composer : MIDIComposer),
    create_from_json data = Ok composer ->
    Forall valid_track (tracks composer).
Proof.
  intros data composer. unfold create_from_json, run_create_from_json.
  destruct (note_name_to_midi _ _) as [root|]; [|discriminate].
  destruct (ScaleType.of_name _) as [scale_type|]; [|discriminate].
  destruct (load_tracks _ _ _ _) as [c|] eqn:E; [|discriminate].
  intros [= <-]. apply load_tracks_returned in E.
  destruct E as [_ [_ [built [Hb [_ [_ Hv]]]]]].
  simpl in Hb. now rewrite Hb.
Qed.

Lemma create_from_json_tracks_in_order_witness :
  exists composer,
    create_from_json
      {| spec_tempo := Some 85; spec_time_signature := None;
         spec_key := Some "A"%string; spec_octave := Some 3;
         spec_scale := Some "MINOR"%string;
         spec_tracks :=
           Some [BassTrack (Some [(1, 2%float); (6, 2%float)]) (Some 2) None;
                 OtherTrack;
                 ChordProgressionTrack (Some [1; 6; 4; 5]) None
                   (Some "rhodes"%string)] |} = Ok composer
    /\ tempo composer = 85
    /\ map channel (tracks composer) = [2; 0].
Proof.
  match goal with
  | |- exists composer, create_from_json ?d = _ /\ _ => set (data := d)
  end.
  assert (exists composer, create_from_json data = Ok composer)
    as [composer H] by (eexists; reflexivity).
  exists composer. split; [exact H|].
  destruct (create_from_json_tracks_in_order data composer H)
    as [Ht [_ [_ Hc]]].
  split; [exact Ht | exact Hc].
Defined.

Lemma create_from_json_tracks_valid_witness :
  exists composer,
    create_from_json
      {| spec_tempo := None; spec_time_signature := None;
         spec_key := Some "G"%string; spec_octave := Some 9;
         spec_scale := None;
         spec_tracks :=
           Some [MelodyTrack (Some [(40, 1%float, 0%float)]) None
                   (Some "kazoo"%string)] |} = Ok composer
    /\ Forall valid_track (tracks composer).
Proof.
  match goal with
  | |- exists composer, create_from_json ?d = _ /\ _ => set (data := d)
  end.
  assert (exists composer, create_from_json data = Ok composer)
    as [composer H] by (eexists; reflexivity).
  exists composer. split; [exact H|].
  apply (create_from_json_tracks_valid data composer H).
Defined.

(** ** The loader: failures inside the loop *)

Lemma build_track_time_signature c c' root scale_type ts :
  time_signature c = time_signature c' ->
  build_track c root scale_type ts = build_track c' root scale_type ts.
Proof.
  intros H. destruct ts; simpl; try reflexivity.
  destruct (item pattern "pattern"); simpl; [|reflexivity].
  unfold create_drum_pattern. now rewrite H.
Qed.

Lemma build_track_missing_field c root scale_type ts field :
  missing_field ts = Some field ->
  build_track c root scale_type ts = Raise (MissingField field).
Proof.
  destruct ts as [[p|] ? ? | [p|] ? ? | [p|] ? ? | [p|] ? |]; simpl;
    try discriminate; now intros [= <-].
Qed.

Lemma load_tracks_aborts root scale_type before bad after e :
  forall c,
    Forall (fun ts => exists r, build_track c root scale_type ts = Ok r)
           before ->
    build_track c root scale_type bad = Raise e ->
    exists c',
      load_tracks root scale_type (before ++ bad :: after) c = Aborted e c'
      /\ time_signature c' = time_signature c
      /\ List.length (tracks c')
         = (List.length (tracks c)
            + List.length (filter recognised before))%nat.
Proof.
  induction before as [|ts before IH]; intros c Hbefore Hbad.
  - simpl. rewrite Hbad. exists c. repeat split. simpl. lia.
  - inversion Hbefore as [|? ? [r Hr] Hrest]; subst.
    cbn [app load_tracks]. rewrite Hr.
    pose proof (build_track_built _ _ _ _ _ Hr) as Hbuilt.
    destruct r as [track|].
    + destruct Hbuilt as [Hrec _].
      destruct (IH (add_track c track)) as [c' [Hrun [Hts Hlen]]].
      * eapply Forall_impl; [|exact Hrest]. intros ts' [r' Hr'].
        exists r'. rewrite <- Hr'.
        now apply build_track_time_signature.
      * rewrite <- Hbad. now apply build_track_time_signature.
      * exists c'. split; [exact Hrun|]. split; [exact Hts|].
        rewrite Hlen. cbn [filter]. rewrite Hrec. simpl.
        rewrite length_app. simpl. lia.
    + destruct (IH c Hrest Hbad) as [c' [Hrun [Hts Hlen]]].
      exists c'. split; [exact Hrun|]. split; [exact Hts|].
      rewrite Hlen. cbn [filter]. now rewrite Hbuilt.
Qed.

(** A descriptor that lacks the field its type requires (progression for a
    chord progression, pattern for the others) aborts the load with the
    KeyError of that field, whatever follows it.  When the descriptors
    before it build, the tracks made from them stay in the loader's local
    composer and are not returned. *)
Theorem create_from_json_missing_field :
  forall (data : composition_spec) (root : Z) (scale_type : ScaleType.t)
         (before after : list track_spec) (bad : track_spec)
         (field : string),
    note_name_to_midi (get (spec_key data) "C"%string)
      (get (spec_octave data) 4) = Ok root ->
    ScaleType.of_name (get (spec_scale data) "MAJOR"%string)
    = Some scale_type ->
    get (spec_tracks data) [] = before ++ bad :: after ->
    Forall (fun ts =>
              exists r,
                build_track
                  (new_MIDIComposer (get (spec_tempo data) 120)
                     (get (spec_time_signature data) [4; 4]))
                  root scale_type ts = Ok r) before ->
    missing_field bad = Some field ->
    create_from_json data = Raise (MissingField field)
    /\ exists composer,
         run_create_from_json data = Aborted (MissingField field) composer
         /\ List.length (tracks composer)
            = List.length (filter recognised before).
Proof.
  intros data root scale_type before after bad field Hkey Hscale Hspecs
    Hbefore Hbad.
  destruct (load_tracks_aborts root scale_type before bad after
              (MissingField field) _ Hbefore
              (build_track_missing_field _ root scale_type bad field Hbad))
    as [c' [Hrun [_ Hlen]]].
  unfold create_from_json, run_create_from_json.
  rewrite Hkey, Hscale, Hspecs, Hrun. split; [reflexivity|].
  exists c'. split; [reflexivity | exact Hlen].
Qed.

Lemma create_from_json_missing_field_witness :
  create_from_json
    {| spec_tempo := None; spec_time_signature := None;
       spec_key := None; spec_octave := None; spec_scale := None;
       spec_tracks :=
         Some [BassTrack (Some [(1, 1%float)]) None None;
               MelodyTrack None (Some 5) None;
               DrumsTrack None None] |}
  = Raise (MissingField "pattern").
Proof.
  refine (proj1 (create_from_json_missing_field
                   {| spec_tempo := None; spec_time_signature := None;
                      spec_key := None; spec_octave := None;
                      spec_scale := None;
                      spec_tracks :=
                        Some [BassTrack (Some [(1, 1%float)]) None None;
                              MelodyTrack None (Some 5) None;
                              DrumsTrack None None] |}
                   60 ScaleType.MAJOR
                   [BassTrack (Some [(1, 1%float)]) None None]
                   [DrumsTrack None None]
                   (MelodyTrack None (Some 5) None) "pattern"
                   eq_refl eq_refl eq_refl _ eq_refl)).
  constructor; [|constructor]. eexists. reflexivity.
Defined.

(** * The event sink *)

Lemma enumerate_from_In {A : Type} (l : list A) (a i : Z) (x : A) :
  In (i, x) (enumerate_from a l) -> a <= i < a + Py.len l /\ In x l.
Proof.
  revert a. induction l as [|y l IH]; intros a; simpl; [tauto|].
  unfold Py.len in *. simpl List.length.
  intros [[= <- <-]|H].
  - split; [lia | now left].
  - apply IH in H. split; [lia | now right].
Qed.

Lemma enumerate_from_length {A : Type} (l : list A) (a : Z) :
  List.length (enumerate_from a l) = List.length l.
Proof.
  revert a. induction l as [|y l IH]; intros a; simpl; [reflexivity|].
  now rewrite IH.
Qed.

Lemma export_track_notes tempo i track :
  filter is_addNote (export_track_calls tempo (i, track))
  = map (fun note =>
           addNote i (channel track) (pitch note) (start_time note)
             (duration note) (velocity note)) (notes track).
Proof.
  unfold export_track_calls. simpl.
  destruct (negb (channel track =? 9)); simpl;
    (induction (notes track) as [|n l IH]; simpl; [reflexivity|];
     now rewrite IH).
Qed.

Lemma export_track_program_changes tempo i track :
  filter is_addProgramChange (export_track_calls tempo (i, track))
  = if negb (channel track =? 9)
    then [addProgramChange i (channel track) 0 (program track)]
    else [].
Proof.
  unfold export_track_calls. simpl.
  assert (filter is_addProgramChange
            (map (fun note =>
                    addNote i (channel track) (pitch note) (start_time note)
                      (duration note) (velocity note)) (notes track)) = [])
    as H by (induction (notes track) as [|n l IH]; simpl; auto).
  destruct (negb (channel track =? 9)); simpl; now rewrite H.
Qed.

Lemma export_track_index tempo i track c t :
  In c (export_track_calls tempo (i, track)) ->
  call_track c = Some t -> t = i.
Proof.
  unfold export_track_calls. simpl.
  intros [<-|[<-|H]]; simpl; try congruence.
  apply in_app_or in H. destruct H as [H|H].
  - destruct (negb (channel track =? 9)); [|destruct H].
    destruct H as [<-|[]]. simpl. congruence.
  - apply in_map_iff in H. destruct H as [n [<- _]]. simpl. congruence.
Qed.

Lemma filter_flat_map_app {A B : Type} (keep : B -> bool) (g : A -> list B)
    (h : A -> list B) (l : list A) :
  (forall x, filter keep (g x) = h x) ->
  filter keep (flat_map g l) = flat_map h l.
Proof.
  intros H. rewrite filter_flat_map. induction l as [|x l IH]; simpl;
    [reflexivity|]. now rewrite H, IH.
Qed.

(** The calls that build the file address a track or create the file. *)
Lemma building_calls_kind self c :
  In c (building_calls self) ->
  c = MIDIFile_init (Py.len (tracks self)) \/ call_track c <> None.
Proof.
  unfold building_calls. intros [<-|H]; [now left|]. right.
  apply in_flat_map in H. destruct H as [[i track] [_ H]].
  unfold export_track_calls in H. simpl in H.
  destruct H as [<-|[<-|H]]; try discriminate.
  apply in_app_or in H. destruct H as [H|H].
  - destruct (negb (channel track =? 9)); [|destruct H].
    destruct H as [<-|[]]. discriminate.
  - apply in_map_iff in H. destruct H as [n [<- _]]. discriminate.
Qed.

Lemma building_calls_not_writeFile self filename :
  ~ In (writeFile filename) (building_calls self).
Proof.
  intros H. apply building_calls_kind in H.
  destruct H as [H|H]; [discriminate | now apply H].
Qed.

Section Outside_facts.

Context {E : Type}.
Variable raises : list export_call -> export_call -> option E.

Lemma run_app a b made :
  run raises (a ++ b) made
  = match run raises a made with
    | (made', inr _) => run raises b made'
    | (made', inl e) => (made', inl e)
    end.
Proof.
  revert made. induction a as [|c a IH]; intros made; simpl; [reflexivity|].
  destruct (raises made c); [reflexivity | apply IH].
Qed.

Lemma for_in_call_run {A : Type} (f : A -> export_call) l made :
  for_in l (fun x => call raises (f x)) made = run raises (map f l) made.
Proof.
  revert made. induction l as [|x l IH]; intros made; simpl; [reflexivity|].
  unfold and_then, call. destruct (raises made (f x)); [reflexivity|].
  apply IH.
Qed.

Lemma export_track_run tempo entry made :
  export_track raises tempo entry made
  = run raises (export_track_calls tempo entry) made.
Proof.
  destruct entry as [i track]. unfold export_track, export_track_calls.
  cbn [app run]. unfold and_then at 1. unfold call at 1.
  destruct (raises made _); [reflexivity|].
  unfold and_then at 1. unfold call at 1.
  destruct (raises (made ++ _) _); [reflexivity|].
  unfold and_then at 1.
  destruct (negb (channel track =? 9)); cbn [app run].
  - unfold call at 1. destruct (raises _ _); [reflexivity|].
    apply for_in_call_run.
  - unfold ret. apply for_in_call_run.
Qed.

Lemma for_in_tracks_run tempo entries made :
  for_in entries (export_track raises tempo) made
  = run raises (flat_map (export_track_calls tempo) entries) made.
Proof.
  revert made. induction entries as [|entry entries IH]; intros made;
    simpl; [reflexivity|].
  unfold and_then. rewrite export_track_run, run_app.
  destruct (run raises (export_track_calls tempo entry) made)
    as [made' [e|[]]]; [reflexivity | apply IH].
Qed.

Lemma quiet_nil made : quiet raises made [].
Proof. intros before c rest H. now destruct before. Qed.

Lemma quiet_cons made c calls :
  quiet raises made (c :: calls)
  <-> raises made c = None /\ quiet raises (made ++ [c]) calls.
Proof.
  split.
  - intros H. split.
    + rewrite <- (app_nil_r made). now apply (H [] c calls).
    + intros before c' rest ->. rewrite <- app_assoc.
      now apply (H (c :: before) c' rest).
  - intros [Hc H] [|c0 before] c' rest Heq.
    + injection Heq as <- _. now rewrite app_nil_r.
    + injection Heq as <- ->.
      specialize (H before c' rest eq_refl).
      now rewrite <- app_assoc in H.
Qed.

Lemma quiet_app made a b :
  quiet raises made (a ++ b)
  <-> quiet raises made a /\ quiet raises (made ++ a) b.
Proof.
  revert made. induction a as [|c a IH]; intros made.
  - simpl. rewrite app_nil_r. split; [|tauto].
    intros H. split; [apply quiet_nil | exact H].
  - cbn [app]. rewrite !quiet_cons, IH, <- app_assoc. cbn [app]. tauto.
Qed.

Lemma run_quiet calls made :
  quiet raises made calls -> run raises calls made = (made ++ calls, inr tt).
Proof.
  revert made. induction calls as [|c calls IH]; intros made H.
  - simpl. now rewrite app_nil_r.
  - apply quiet_cons in H. destruct H as [Hc H]. simpl. rewrite Hc.
    rewrite (IH _ H), <- app_assoc. reflexivity.
Qed.

Lemma run_first_raise calls made before c e :
  first_raise raises made calls before c e ->
  run raises calls made = (made ++ before ++ [c], inl e).
Proof.
  intros [[rest ->] [Hquiet Hc]]. rewrite run_app, (run_quiet _ _ Hquiet).
  simpl. rewrite Hc. now rewrite <- app_assoc.
Qed.

Lemma first_raise_unique calls made before c e before' c' e' :
  first_raise raises made calls before c e ->
  first_raise raises made calls before' c' e' ->
  before = before' /\ c = c' /\ e = e'.
Proof.
  intros H H'. apply run_first_raise in H. apply run_first_raise in H'.
  rewrite H in H'. injection H' as Hmade ->.
  apply app_inv_head in Hmade. apply app_inj_tail in Hmade.
  destruct Hmade as [-> ->]. auto.
Qed.

Lemma first_raise_not_quiet calls made before c e :
  first_raise raises made calls before c e -> ~ quiet raises made calls.
Proof.
  intros [[rest ->] [_ Hc]] H. rewrite (H before c rest eq_refl) in Hc.
  discriminate.
Qed.

Lemma quiet_or_first_raise calls made :
  quiet raises made calls
  \/ exists before c e, first_raise raises made calls before c e.
Proof.
  revert made. induction calls as [|c calls IH]; intros made.
  - left. apply quiet_nil.
  - destruct (raises made c) as [e|] eqn:Hc.
    + right. exists [], c, e. split; [now exists calls|].
      split; [apply quiet_nil | now rewrite app_nil_r].
    + destruct (IH (made ++ [c])) as [H|[before [c' [e [[rest ->] [Hq H]]]]]].
      * left. now apply quiet_cons.
      * right. exists (c :: before), c', e.
        split; [now exists rest|]. split.
        -- now apply quiet_cons.
        -- now rewrite <- app_assoc in H.
Qed.

Lemma first_raise_app calls more made before c e :
  first_raise raises made calls before c e ->
  first_raise raises made (calls ++ more) before c e.
Proof.
  intros [[rest ->] H]. split; [|exact H].
  exists (rest ++ more). now rewrite <- app_assoc.
Qed.

Lemma first_raise_after calls made c e more :
  quiet raises made calls ->
  raises (made ++ calls) c = Some e ->
  first_raise raises made (calls ++ c :: more) calls c e.
Proof. intros Hq Hc. split; [now exists more | now split]. Qed.

(** [export_to_midi] in two parts: the calls up to the opening of the file run
    until one raises; a failed write is followed by the closing of the
    file. *)
Lemma export_to_midi_run self filename made :
  export_to_midi raises self filename made
  = match run raises (building_calls self ++ [open filename "wb"]) made with
    | (made, inl e) => (made, inl e)
    | (made, inr _) =>
        match raises made (writeFile filename) with
        | Some e =>
            (made ++ [writeFile filename; close filename],
             inl match raises (made ++ [writeFile filename])
                         (close filename) with
                 | Some e' => e'
                 | None => e
                 end)
        | None =>
            match run raises
                    [close filename; print ("MIDI file saved: " ++ filename)]
                    (made ++ [writeFile filename]) with
            | (made, inl e) => (made, inl e)
            | (made, inr _) => (made, inr filename)
            end
        end
    end.
Proof.
  unfold export_to_midi, building_calls.
  rewrite run_app. cbn [app run].
  unfold and_then at 1. unfold call at 1.
  destruct (raises made _); [reflexivity|].
  unfold and_then at 1. rewrite for_in_tracks_run.
  destruct (run raises _ _) as [made1 [e|[]]]; [reflexivity|].
  cbn [run]. unfold and_then at 1. unfold with_open, and_then at 1.
  unfold call at 1.
  destruct (raises made1 (open filename "wb")); [reflexivity|].
  unfold call at 1 2 3.
  destruct (raises (made1 ++ [open filename "wb"]) (writeFile filename)).
  - rewrite <- !app_assoc. cbn [app].
    destruct (raises _ (close filename)); reflexivity.
  - destruct (raises _ (close filename)); [reflexivity|].
    unfold and_then, call, ret.
    destruct (raises _ (print _)); reflexivity.
Qed.

(** The outcome of an export, by whether and where a call raises. *)
Lemma export_to_midi_cases self filename :
  let calls := export_calls self filename in
  (quiet raises [] calls
   /\ export_to_midi raises self filename [] = (calls, inr filename))
  \/ (exists before c e,
         first_raise raises [] calls before c e
         /\ ((c <> writeFile filename
              /\ export_to_midi raises self filename []
                 = (before ++ [c], inl e))
             \/ (c = writeFile filename
                 /\ calls = before ++ [c; close filename;
                                       print ("MIDI file saved: "
                                              ++ filename)]
                 /\ export_to_midi raises self filename []
                    = (before ++ [c; close filename],
                       inl match raises (before ++ [c]) (close filename) with
                           | Some e' => e'
                           | None => e
                           end)))).
Proof.
  cbn zeta. rewrite export_to_midi_run. unfold export_calls, saving_calls.
  set (opening := building_calls self ++ [open filename "wb"]).
  set (line := ("MIDI file saved: " ++ filename)%string).
  replace (building_calls self
           ++ [open filename "wb"; writeFile filename; close filename;
               print line])
    with (opening ++ [writeFile filename; close filename; print line])
    by (unfold opening; now rewrite <- app_assoc).
  destruct (quiet_or_first_raise opening [])
    as [Hquiet|[before [c [e Hfirst]]]].
  - rewrite (run_quiet _ _ Hquiet). cbn [app].
    destruct (raises opening (writeFile filename)) as [e|] eqn:Hwrite.
    { right. exists opening, (writeFile filename), e. split.
      - now apply first_raise_after.
      - right. split; [reflexivity|]. split; reflexivity. }
    cbn [run].
    destruct (raises (opening ++ [writeFile filename]) (close filename))
      as [e|] eqn:Hclose.
    { right. exists (opening ++ [writeFile filename]), (close filename), e.
      split.
      - replace (opening
                 ++ [writeFile filename; close filename; print line])
          with ((opening ++ [writeFile filename])
                ++ close filename :: [print line])
          by now rewrite <- app_assoc.
        apply first_raise_after; [|exact Hclose].
        apply quiet_app. split; [exact Hquiet|].
        apply quiet_cons. split; [exact Hwrite | apply quiet_nil].
      - left. split; [discriminate | reflexivity]. }
    destruct (raises ((opening ++ [writeFile filename]) ++ [close filename])
                (print line)) as [e|] eqn:Hprint.
    { right.
      exists ((opening ++ [writeFile filename]) ++ [close filename]),
        (print line), e.
      split.
      - replace (opening
                 ++ [writeFile filename; close filename; print line])
          with (((opening ++ [writeFile filename]) ++ [close filename])
                ++ print line :: [])
          by now rewrite <- !app_assoc.
        apply first_raise_after; [|exact Hprint].
        apply quiet_app. split.
        + apply quiet_app. split; [exact Hquiet|].
          apply quiet_cons. split; [exact Hwrite | apply quiet_nil].
        + apply quiet_cons. split; [exact Hclose | apply quiet_nil].
      - left. split; [discriminate | reflexivity]. }
    left. split.
    + apply quiet_app. split; [exact Hquiet|].
      apply quiet_cons. split; [exact Hwrite|].
      apply quiet_cons. split; [exact Hclose|].
      apply quiet_cons. split; [exact Hprint | apply quiet_nil].
    + now rewrite <- !app_assoc.
  - rewrite (run_first_raise _ _ _ _ _ Hfirst). cbn [app].
    right. exists before, c, e. split; [now apply first_raise_app|].
    left. split; [|reflexivity].
    intros ->. destruct Hfirst as [[rest Heq] _].
    assert (In (writeFile filename) opening) as Hin
        by (rewrite Heq; apply in_elt).
    apply in_app_or in Hin. destruct Hin as [Hin|[Hin|[]]]; [|discriminate].
    now apply building_calls_not_writeFile in Hin.
Qed.

(** The calls an export makes are the first of its calls in full. *)
Lemma export_to_midi_made_prefix self filename :
  exists rest,
    export_calls self filename
    = fst (export_to_midi raises self filename []) ++ rest.
Proof.
  destruct (export_to_midi_cases self filename)
    as [[_ ->]|[before [c [e [Hfirst [[_ ->]|[_ [Hcalls ->]]]]]]]];
    cbn [fst].
  - exists []. now rewrite app_nil_r.
  - destruct Hfirst as [[rest ->] _]. exists rest.
    now rewrite <- app_assoc.
  - exists [print ("MIDI file saved: " ++ filename)].
    rewrite Hcalls, <- app_assoc. reflexivity.
Qed.

End Outside_facts.

Lemma export_calls_program_changes self filename :
  filter is_addProgramChange (export_calls self filename)
  = flat_map
      (fun entry : Z * Track =>
         if negb (channel (snd entry) =? 9)
         then [addProgramChange (fst entry) (channel (snd entry)) 0
                 (program (snd entry))]
         else [])
      (enumerate_from 0 (tracks self)).
Proof.
  unfold export_calls, building_calls, saving_calls.
  rewrite filter_app. cbn [filter is_addProgramChange].
  rewrite app_nil_r. apply filter_flat_map_app. intros [i track].
  apply export_track_program_changes.
Qed.

(** What [export_to_midi] does with the outside, whatever the outside does.
    The calls it makes are the first of the calls of an uninterrupted
    export, one after the other.  When none of these raises, all are made
    and the file name is returned, and the file name is returned in this
    case only.  Otherwise the export raises: the first call to raise is the
    last call made and its exception is the export's, except that a failed
    write is still followed by the closing of the file, whose exception, if
    it raises one, replaces that of the write.  The calls of an
    uninterrupted export create the file for as many tracks as the composer
    holds, address only tracks below that number, hand over the notes of
    the tracks in track order and then note order, each with its track's
    index and channel, change the program once for every track whose
    channel is not 9 and never on channel 9, and end with opening, writing
    and closing the file and printing the line that names it. *)
Theorem export_to_midi_calls :
  forall (E : Type) (raises : list export_call -> export_call -> option E)
         (self : MIDIComposer) (filename : string),
    let calls := export_calls self filename in
    let made := fst (export_to_midi raises self filename []) in
    let outcome := snd (export_to_midi raises self filename []) in
    (exists rest, calls = made ++ rest)
    /\ (quiet raises [] calls <-> outcome = inr filename)
    /\ (forall name, outcome = inr name -> name = filename /\ made = calls)
    /\ (forall before c e,
          first_raise raises [] calls before c e ->
          (c <> writeFile filename ->
           made = before ++ [c] /\ outcome = inl e)
          /\ (c = writeFile filename ->
              made = before ++ [c; close filename]
              /\ outcome
                 = inl match raises (before ++ [c]) (close filename) with
                       | Some e' => e'
                       | None => e
                       end))
    /\ hd_error calls = Some (MIDIFile_init (Py.len (tracks self)))
    /\ (exists building,
           calls = building
                   ++ [open filename "wb"; writeFile filename;
                       close filename;
                       print ("MIDI file saved: " ++ filename)])
    /\ (forall c t,
          In c calls -> call_track c = Some t ->
          0 <= t < Py.len (tracks self))
    /\ filter is_addNote calls
       = flat_map
           (fun entry : Z * Track =>
              map (fun note =>
                     addNote (fst entry) (channel (snd entry)) (pitch note)
                       (start_time note) (duration note) (velocity note))
                  (notes (snd entry)))
           (enumerate_from 0 (tracks self))
    /\ filter is_addProgramChange calls
       = flat_map
           (fun entry : Z * Track =>
              if negb (channel (snd entry) =? 9)
              then [addProgramChange (fst entry) (channel (snd entry)) 0
                      (program (snd entry))]
              else [])
           (enumerate_from 0 (tracks self))
    /\ (forall t ch time p,
          In (addProgramChange t ch time p) calls -> ch <> 9).
Proof.
  intros E raises self filename calls made outcome.
  pose proof (export_to_midi_cases raises self filename) as Hcases.
  cbn zeta in Hcases. fold calls in Hcases.
  split; [apply export_to_midi_made_prefix|].
  split; [|split; [|split]].
  - subst outcome.
    destruct Hcases as [[Hq ->]|[before [c [e [Hfirst Hout]]]]];
      cbn [snd]; [tauto|].
    split.
    + intros Hq. now apply first_raise_not_quiet in Hfirst.
    + destruct Hout as [[_ ->]|[_ [_ ->]]]; discriminate.
  - subst outcome made. intros name.
    destruct Hcases as [[Hq ->]|[before [c [e [_ Hout]]]]]; cbn [fst snd].
    + intros [= <-]. auto.
    + destruct Hout as [[_ ->]|[_ [_ ->]]]; discriminate.
  - subst outcome made. intros before c e Hfirst.
    destruct Hcases as [[Hq _]|[before' [c' [e' [Hfirst' Hout]]]]].
    { now apply first_raise_not_quiet in Hfirst. }
    destruct (first_raise_unique raises _ _ _ _ _ _ _ _ Hfirst Hfirst')
      as [<- [<- <-]].
    destruct Hout as [[Hc ->]|[Hc [_ ->]]]; cbn [fst snd].
    + split; [auto | intros; contradiction].
    + split; [intros; contradiction | auto].
  - split; [reflexivity|]. split; [now exists (building_calls self)|].
    subst calls. unfold export_calls, building_calls, saving_calls.
    split; [|split; [|split]].
    + intros c t Hc Ht. apply in_app_or in Hc.
      destruct Hc as [[<-|Hc]|Hc].
      * discriminate.
      * apply in_flat_map in Hc. destruct Hc as [[i track] [Hi Hc]].
        apply (export_track_index _ _ _ _ _ Hc) in Ht. subst t.
        apply enumerate_from_In in Hi. lia.
      * destruct Hc as [<-|[<-|[<-|[<-|[]]]]]; discriminate.
    + rewrite filter_app. cbn [filter is_addNote]. rewrite app_nil_r.
      apply filter_flat_map_app. intros [i track].
      apply export_track_notes.
    + apply (export_calls_program_changes self filename).
    + intros t ch time p H.
      assert (In (addProgramChange t ch time p)
                 (filter is_addProgramChange (export_calls self filename)))
        as Hf by (apply filter_In; split; [exact H | reflexivity]).
      rewrite export_calls_program_changes in Hf. apply in_flat_map in Hf.
      destruct Hf as [[i track] [_ Hf]]. cbn [fst snd] in Hf.
      destruct (Z.eqb_spec (channel track) 9) as [|Hne]; [destruct Hf|].
      destruct Hf as [[= <- <- <- <-]|[]]. exact Hne.
Qed.

Lemma export_to_midi_calls_witness :
  export_to_midi zero_tempo_raises
    {| tempo := 0; time_signature := [4; 4];
       tracks := [{| name := "Melody"; channel := 1;
                     notes := [{| pitch := 60; start_time := 0;
                                  duration := 1; velocity := 85 |}];
                     program := 81 |}] |}
    "out.mid" []
  = ([MIDIFile_init 1; addTrackName 0 0 "Melody"; addTempo 0 0 0],
     inl ZeroDivisionError).
Proof.
  set (self := {| tempo := 0; time_signature := [4; 4]; tracks := _ |}).
  destruct (export_to_midi_calls exn zero_tempo_raises self "out.mid")
    as [_ [_ [_ [H _]]]].
  destruct (H [MIDIFile_init 1; addTrackName 0 0 "Melody"] (addTempo 0 0 0)
              ZeroDivisionError) as [H' _].
  - split; [eexists; reflexivity|]. split; [|reflexivity].
    intros [|c1 [|c2 before]] c rest Heq.
    + injection Heq as <- _. reflexivity.
    + injection Heq as _ <- _. reflexivity.
    + apply (f_equal (@List.length _)) in Heq. rewrite length_app in Heq.
      simpl in Heq. lia.
  - destruct H' as [Hmade Hout]; [discriminate|].
    rewrite (surjective_pairing (export_to_midi _ _ _ _)).
    now rewrite Hmade, Hout.
Defined.

Lemma export_note_origin self filename t ch p time dur vol :
  In (addNote t ch p time dur vol) (export_calls self filename) ->
  exists track note,
    In track (tracks self) /\ In note (notes track)
    /\ ch = channel track /\ p = pitch note /\ vol = velocity note
    /\ time = start_time note /\ dur = duration note.
Proof.
  unfold export_calls, building_calls, saving_calls. intros H.
  apply in_app_or in H.
  destruct H as [[H|H]|[H|[H|[H|[H|[]]]]]]; try discriminate.
  apply in_flat_map in H. destruct H as [[i track] [Hi H]].
  apply enumerate_from_In in Hi. destruct Hi as [_ Hi].
  assert (In (addNote t ch p time dur vol)
             (filter is_addNote
                (export_track_calls (tempo self) (i, track))))
    as Hf by (apply filter_In; split; [exact H | reflexivity]).
  rewrite export_track_notes in Hf. apply in_map_iff in Hf.
  destruct Hf as [note [[= <- <- <- <- <- <-] Hn]].
  exists track, note. repeat split; assumption.
Qed.

(** Loading a document and exporting the result only ever sends note calls
    a MIDI file accepts: the channel is one of the 16 and pitch and volume
    are data bytes of 0..127.  This holds of the note calls of an
    uninterrupted export and so of those made whatever the outside does. *)
Theorem create_from_json_export_valid :
  forall (E : Type) (raises : list export_call -> export_call -> option E)
         (data : composition_spec) (composer : MIDIComposer)
         (filename : string) (t ch p : Z) (time dur : float) (vol : Z),
    create_from_json data = Ok composer ->
    In (addNote t ch p time dur vol) (export_calls composer filename)
    \/ In (addNote t ch p time dur vol)
          (fst (export_to_midi raises composer filename [])) ->
    0 <= ch <= 15 /\ 0 <= p <= 127 /\ 0 <= vol <= 127.
Proof.
  intros E raises data composer filename t ch p time dur vol Hload Hcall.
  assert (In (addNote t ch p time dur vol) (export_calls composer filename))
    as Hin.
  { destruct Hcall as [H|H]; [exact H|].
    destruct (export_to_midi_made_prefix raises composer filename)
      as [rest ->].
    apply in_or_app. now left. }
  apply export_note_origin in Hin.
  destruct Hin as [track [note [Ht [Hn [-> [-> [-> _]]]]]]].
  assert (Forall valid_track (tracks composer)) as Hvalid.
  { revert Hload. unfold create_from_json, run_create_from_json.
    destruct (note_name_to_midi _ _) as [root|]; [|discriminate].
    destruct (ScaleType.of_name _) as [scale_type|]; [|discriminate].
    destruct (load_tracks _ _ _ _) as [c|] eqn:E'; [|discriminate].
    intros [= <-]. apply load_tracks_returned in E'.
    destruct E' as [_ [_ [built [Hb [_ [_ Hv]]]]]].
    simpl in Hb. now rewrite Hb. }
  rewrite Forall_forall in Hvalid.
  destruct (Hvalid track Ht) as [Hc [_ Hnotes]].
  rewrite Forall_forall in Hnotes. destruct (Hnotes note Hn) as [Hp Hv].
  auto.
Qed.

Lemma create_from_json_export_valid_witness :
  0 <= 1 <= 15 /\ 0 <= 127 <= 127 /\ 0 <= 85 <= 127.
Proof.
  apply (create_from_json_export_valid exn zero_tempo_raises
           {| spec_tempo := None; spec_time_signature := None;
              spec_key := Some "G"%string; spec_octave := Some 9;
              spec_scale := None;
              spec_tracks :=
                Some [MelodyTrack (Some [(40, 1%float, 0%float)]) None
                        None] |}
           {| tempo := 120; time_signature := [4; 4];
              tracks := [{| name := "Melody"; channel := 1;
                            notes := [{| pitch := 127; start_time := 0;
                                         duration := 1; velocity := 85 |}];
                            program := 81 |}] |}
           "out.mid" 0 1 127 0 1 85).
  - reflexivity.
  - left. vm_compute. right; right; right; right; left. reflexivity.
Defined.

(** * The text-notation generator *)

Lemma string_length_append (a b : string) :
  String.length (a ++ b) = (String.length a + String.length b)%nat.
Proof. induction a as [|c a IH]; simpl; [reflexivity | now rewrite IH]. Qed.

Lemma string_append_cancel_r (a b s : string) :
  (a ++ s = b ++ s)%string -> a = b.
Proof.
  revert b. induction a as [|c a IH]; intros [|d b] H; simpl in H.
  - reflexivity.
  - apply (f_equal String.length) in H. simpl in H.
    rewrite string_length_append in H. lia.
  - apply (f_equal String.length) in H. simpl in H.
    rewrite string_length_append in H. lia.
  - injection H as -> H. f_equal. now apply IH.
Qed.

Lemma note_names_distinct_checked :
  distinct_note_names = true.
Proof. vm_compute. reflexivity. Qed.

(** Two pitches of 0..127 are never written alike: with the same duration,
    equal note texts come from equal pitches. *)
Theorem midi_to_lilypond_note_injective :
  forall (m1 m2 : Z) (duration : float),
    0 <= m1 <= 127 -> 0 <= m2 <= 127 ->
    LilyPondGenerator.midi_to_lilypond_note m1 duration false
    = LilyPondGenerator.midi_to_lilypond_note m2 duration false ->
    m1 = m2.
Proof.
  intros m1 m2 duration H1 H2 H.
  unfold LilyPondGenerator.midi_to_lilypond_note in H.
  apply string_append_cancel_r in H.
  pose proof note_names_distinct_checked as Hall.
  unfold distinct_note_names in Hall. rewrite forallb_forall in Hall.
  assert (forall m, 0 <= m <= 127 ->
                    In (m, LilyPondGenerator.note_name_with_octave m)
                       note_name_table) as Hin.
  { intros m Hm. unfold note_name_table. apply in_map_iff.
    exists m. split; [reflexivity | apply range_In; lia]. }
  specialize (Hall _ (Hin m1 H1)). rewrite forallb_forall in Hall.
  specialize (Hall _ (Hin m2 H2)). cbn [fst snd] in Hall.
  apply orb_prop in Hall.
  destruct Hall as [Heq|Hne]; [now apply Z.eqb_eq|].
  rewrite H, String.eqb_refl in Hne. discriminate.
Qed.

Lemma midi_to_lilypond_note_injective_witness :
  LilyPondGenerator.midi_to_lilypond_note 60 1 false = "c'4"%string
  /\ (LilyPondGenerator.midi_to_lilypond_note 60 1 false
      = LilyPondGenerator.midi_to_lilypond_note 60 1 false -> 60 = 60).
Proof.
  split; [reflexivity|].
  apply (midi_to_lilypond_note_injective 60 60 1); lia.
Defined.

Lemma string_append_assoc (a b c : string) :
  ((a ++ b) ++ c = a ++ (b ++ c))%string.
Proof. induction a as [|x a IH]; simpl; [reflexivity | now rewrite IH]. Qed.

Lemma string_append_nil_r (a : string) : (a ++ "" = a)%string.
Proof. induction a as [|x a IH]; simpl; [reflexivity | now rewrite IH]. Qed.

Lemma note_name_to_midi_value note_name octave p :
  note_name_to_midi note_name octave = Ok p ->
  exists i,
    Py.str_index (normalize_note_name note_name) NOTE_NAMES = Some i
    /\ 0 <= i <= 11
    /\ p = clamp_midi ((octave + 1) * 12 + i).
Proof.
  unfold note_name_to_midi.
  destruct (Py.str_index (normalize_note_name note_name) NOTE_NAMES)
    as [i|] eqn:Hi; [|discriminate].
  intros [= <-]. exists i. split; [reflexivity|].
  apply str_index_bounds in Hi. unfold Py.len in Hi. simpl in Hi.
  split; [lia | reflexivity].
Qed.

(** A name the engine resolves is written back as the same note: for the
    octaves -1..8 the text of the resolved pitch is the LilyPond name at the
    position of the normalised name in [NOTE_NAMES], followed by octave - 3
    apostrophes above octave 3 or 3 - octave commas below it, and the
    duration. *)
Theorem midi_to_lilypond_note_of_resolved_name :
  forall (note_name : string) (octave p : Z) (duration : float),
    -1 <= octave <= 8 ->
    note_name_to_midi note_name octave = Ok p ->
    exists i : Z,
      Py.str_index (normalize_note_name note_name) NOTE_NAMES = Some i
      /\ LilyPondGenerator.midi_to_lilypond_note p duration false
         = (nth (Z.to_nat i) LilyPondGenerator.NOTE_NAMES ""
            ++ (if octave >? 3
                then LilyPondGenerator.str_repeat "'" (octave - 3)
                else LilyPondGenerator.str_repeat "," (3 - octave))
            ++ LilyPondGenerator.DURATION_MAP_get duration "4")%string.
Proof.
  intros note_name octave p duration Hoct Hp.
  apply note_name_to_midi_value in Hp. destruct Hp as [i [Hi [Hr ->]]].
  exists i. split; [exact Hi|].
  unfold LilyPondGenerator.midi_to_lilypond_note.
  rewrite <- string_append_assoc. f_equal.
  unfold LilyPondGenerator.note_name_with_octave, clamp_midi.
  replace (Z.max 0 (Z.min 127 ((octave + 1) * 12 + i)))
    with (i + (octave + 1) * 12) by lia.
  rewrite Z.div_add, Z.mod_add by lia.
  rewrite Z.div_small, Z.mod_small by lia.
  replace (0 + (octave + 1) - 4) with (octave - 3) by lia.
  destruct (Z.gtb_spec (octave - 3) 0) as [Hhigh|Hlow];
    destruct (Z.gtb_spec octave 3); try lia; [reflexivity|].
  destruct (Z.ltb_spec (octave - 3) 0).
  - now replace (Z.abs (octave - 3)) with (3 - octave) by lia.
  - replace (3 - octave) with 0 by lia.
    unfold LilyPondGenerator.str_repeat. simpl.
    now rewrite string_append_nil_r.
Qed.

Lemma midi_to_lilypond_note_of_resolved_name_witness :
  exists i : Z,
    Py.str_index (normalize_note_name "Ebm") NOTE_NAMES = Some i
    /\ LilyPondGenerator.midi_to_lilypond_note 75 0.5 false
       = (nth (Z.to_nat i) LilyPondGenerator.NOTE_NAMES ""
          ++ LilyPondGenerator.str_repeat "'" 2
          ++ LilyPondGenerator.DURATION_MAP_get 0.5 "4")%string.
Proof.
  apply (midi_to_lilypond_note_of_resolved_name "Ebm" 5 75 0.5);
    [lia | reflexivity].
Defined.

(** * Genre templates and quick compositions *)

Lemma get_genre_template_ready genre :
  template_ready (MusicTheoryHelper.get_genre_template genre) = true.
Proof.
  unfold MusicTheoryHelper.get_genre_template.
  destruct (Py.lookup (MusicTheoryHelper.lower genre)
              MusicTheoryHelper.GENRE_TEMPLATES) as [t|] eqn:E;
    [|reflexivity].
  apply lookup_In in E.
  assert (forallb template_ready
            (map snd MusicTheoryHelper.GENRE_TEMPLATES) = true) as Hall
      by reflexivity.
  rewrite forallb_forall in Hall. now apply Hall.
Qed.

Lemma set_program_valid track p :
  valid_track track -> 0 <= p <= 127 -> valid_track (set_program track p).
Proof.
  unfold valid_track, set_program. simpl. intros [Hc [_ Hn]] Hp. auto.
Qed.

Lemma create_chord_progression_positive root scale_type progression dur :
  forallb (fun degree => 1 <=? degree) progression = true ->
  exists track,
    create_chord_progression root scale_type progression dur = Ok track.
Proof.
  intros H. rewrite forallb_forall in H.
  destruct (progression_chords_ok root scale_type
              (get_scale_notes root scale_type 3) progression) as [chords Hc].
  - apply Forall_forall. intros degree Hd. specialize (H degree Hd).
    unfold Py.len. lia.
  - rewrite (create_chord_progression_chords _ _ _ dur _ Hc). eauto.
Qed.

Lemma create_bass_line_returns root scale_type pattern octave :
  exists track, create_bass_line root scale_type pattern octave = Ok track.
Proof.
  unfold create_bass_line.
  destruct (bass_for_each
              (map (fun note => note - 24)
                   (filter (fun note => note - 24 >=? 0)
                           (get_scale_notes root scale_type 2)))
              pattern [] 0%float) as [emitted [final_time [-> _]]].
  simpl. eauto.
Qed.

Lemma create_drum_pattern_track_exists self pattern measures beats rest :
  time_signature self = beats :: rest ->
  Z.abs beats * Z.max 0 (measures - 1) < float_overflow_threshold ->
  exists track,
    create_drum_pattern self pattern measures = Ok track
    /\ channel track = 9 /\ valid_track track.
Proof.
  intros Hts Hfits.
  destruct (drum_measures_ok beats pattern (Py.range measures) [])
    as [emitted [Hloop _]].
  { right. now apply range_offsets_in_range. }
  pose proof (create_drum_pattern_Ok self pattern measures beats rest
                _ Hts Hloop) as H.
  eexists. split; [exact H|].
  apply create_drum_pattern_track in H. destruct H as [_ [Hc [Hp Hv]]].
  unfold valid_track. rewrite Hc, Hp. repeat split; try lia. exact Hv.
Qed.

(** A quick composition fails only on the key: when the key resolves it is
    built for every genre text, with the given tempo or else the middle of
    the template's tempo range, a chord track on channel 0, a bass track on
    channel 2 and, for the genres funk, lofi, pop and rock written exactly
    so, a drum track on channel 9; every track is fit for a MIDI sink.  When
    the key does not resolve, the error of the key is raised. *)
Theorem create_quick_composition_outcome :
  forall (genre key : string) (tempo_arg : option Z),
    (forall root,
        note_name_to_midi key 3 = Ok root ->
        exists composer,
          create_quick_composition genre key tempo_arg = Ok composer
          /\ tempo composer
             = match tempo_arg with
               | Some t => t
               | None =>
                   let range :=
                     MusicTheoryHelper.tempo
                       (MusicTheoryHelper.get_genre_template genre) in
                   (fst range + snd range) / 2
               end
          /\ map channel (tracks composer)
             = (if has_drums genre then [0; 2; 9] else [0; 2])
          /\ Forall valid_track (tracks composer))
    /\ (forall e,
          note_name_to_midi key 3 = Raise e ->
          create_quick_composition genre key tempo_arg = Raise e).
Proof.
  intros genre key tempo_arg. split.
  - intros root Hroot. unfold create_quick_composition. rewrite Hroot.
    pose proof (get_genre_template_ready genre) as Hready.
    set (template := MusicTheoryHelper.get_genre_template genre) in *.
    set (the_tempo := match tempo_arg with
                      | Some t => t
                      | None => _
                      end).
    unfold template_ready in Hready.
    destruct (ScaleType.of_name (MusicTheoryHelper.scale template))
      as [scale_type|]; [|discriminate].
    unfold INSTRUMENTS_item.
    destruct (Py.lookup
                (MusicTheoryHelper.chords
                   (MusicTheoryHelper.instruments template)) INSTRUMENTS)
      as [p1|] eqn:E1; [|discriminate].
    destruct (Py.lookup
                (MusicTheoryHelper.bass
                   (MusicTheoryHelper.instruments template)) INSTRUMENTS)
      as [p2|] eqn:E2; [|discriminate].
    destruct (MusicTheoryHelper.time_signature template) as [|beats more]
      eqn:Ets; [discriminate|].
    apply andb_prop in Hready. destruct Hready as [Hready Hbeats].
    apply Z.ltb_lt in Hbeats.
    destruct (create_chord_progression_positive root scale_type
                (MusicTheoryHelper.progression template) 4%float Hready)
      as [chord_track Hchords].
    destruct (create_bass_line_returns root scale_type
                (map (fun degree => (degree, 4%float))
                     (MusicTheoryHelper.progression template)) 2)
      as [bass_track Hbass].
    cbv beta iota delta [bind]. rewrite Hchords.
    cbv beta iota delta [bind]. rewrite Hbass.
    cbv beta iota delta [bind].
    apply create_chord_progression_track in Hchords.
    destruct Hchords as [_ [Hc1 [Hp1 Hv1]]].
    apply create_bass_line_track in Hbass.
    destruct Hbass as [_ [Hc2 [Hp2' Hv2]]].
    apply INSTRUMENTS_programs in E1. apply INSTRUMENTS_programs in E2.
    assert (valid_track (set_program chord_track p1)) as Hvalid1.
    { apply set_program_valid; [|exact E1].
      unfold valid_track. rewrite Hc1, Hp1. repeat split; try lia.
      exact Hv1. }
    assert (valid_track (set_program bass_track p2)) as Hvalid2.
    { apply set_program_valid; [|exact E2].
      unfold valid_track. rewrite Hc2, Hp2'. repeat split; try lia.
      exact Hv2. }
    fold (has_drums genre). destruct (has_drums genre).
    + assert (exists pattern,
                 (if String.eqb genre "funk"
                  then MusicTheoryHelper.create_syncopated_rhythm 4
                  else Ok plain_drum_pattern) = Ok pattern)
        as [pattern ->].
      { destruct (String.eqb genre "funk"); eexists;
          [vm_compute|]; reflexivity. }
      cbv beta iota delta [bind].
      destruct (create_drum_pattern_track_exists
                  (add_track
                     (add_track (new_MIDIComposer the_tempo (beats :: more))
                        (set_program chord_track p1))
                     (set_program bass_track p2)) pattern 4 beats more
                  eq_refl Hbeats)
        as [drum_track [Hdrums [Hc3 Hvalid3]]].
      rewrite Hdrums. eexists. split; [reflexivity|].
      cbn [tempo tracks add_track new_MIDIComposer app map channel
             set_program].
      rewrite Hc1, Hc2, Hc3. repeat split.
      constructor; [exact Hvalid1|]. constructor; [exact Hvalid2|].
      constructor; [exact Hvalid3 | constructor].
    + eexists. split; [reflexivity|].
      cbn [tempo tracks add_track new_MIDIComposer app map channel
             set_program].
      rewrite Hc1, Hc2. repeat split.
      constructor; [exact Hvalid1|]. constructor; [exact Hvalid2|].
      constructor.
  - intros e He. unfold create_quick_composition. now rewrite He.
Qed.

Lemma create_quick_composition_outcome_witness :
  (exists composer,
      create_quick_composition "Jazz" "F#m" None = Ok composer
      /\ tempo composer = 150
      /\ map channel (tracks composer) = [0; 2])
  /\ create_quick_composition "rock" "H" (Some 100)
     = Raise (InvalidNoteName "H").
Proof.
  destruct (create_quick_composition_outcome "Jazz" "F#m" None)
    as [Hok _].
  destruct (create_quick_composition_outcome "rock" "H" (Some 100))
    as [_ Hbad].
  split.
  - destruct (Hok 54 eq_refl) as [composer [Hc [Ht [Hch _]]]].
    exists composer. repeat split; assumption.
  - apply Hbad. reflexivity.
Defined.

Lemma lower_char_idempotent c :
  MusicTheoryHelper.lower_char (MusicTheoryHelper.lower_char c)
  = MusicTheoryHelper.lower_char c.
Proof. destruct c as [[] [] [] [] [] [] [] []]; reflexivity. Qed.

Lemma lower_idempotent s :
  MusicTheoryHelper.lower (MusicTheoryHelper.lower s)
  = MusicTheoryHelper.lower s.
Proof.
  induction s as [|c s IH]; simpl; [reflexivity|].
  now rewrite lower_char_idempotent, IH.
Qed.

(** The template is looked up without regard to letter case, but the drum
    track is decided on the genre text as given: a genre written with an
    upper-case letter gets the template of its lower-case spelling and never
    a drum track. *)
Theorem genre_case_template_and_drums :
  forall genre : string,
    MusicTheoryHelper.get_genre_template genre
    = MusicTheoryHelper.get_genre_template (MusicTheoryHelper.lower genre)
    /\ (MusicTheoryHelper.lower genre <> genre -> has_drums genre = false)
    /\ (Py.lookup (MusicTheoryHelper.lower genre)
          MusicTheoryHelper.GENRE_TEMPLATES = None ->
        MusicTheoryHelper.get_genre_template genre
        = MusicTheoryHelper.fallback_template).
Proof.
  intros genre. split; [|split].
  - unfold MusicTheoryHelper.get_genre_template.
    now rewrite lower_idempotent.
  - intros Hcase. unfold has_drums. simpl.
    repeat match goal with
           | |- context [String.eqb genre ?s] =>
               destruct (String.eqb_spec genre s) as [->|_];
               [exfalso; apply Hcase; reflexivity|]
           end.
    reflexivity.
  - intros H. unfold MusicTheoryHelper.get_genre_template. now rewrite H.
Qed.

(** ** The syncopated rhythm *)

Lemma float_overflow_threshold_large : 16 < float_overflow_threshold.
Proof. reflexivity. Qed.

Lemma int_add_float_in_range i x :
  Z.abs i < float_overflow_threshold ->
  int_add_float i x = Ok (float_of_Z i + x)%float.
Proof.
  intros H. unfold int_add_float. now rewrite int_to_float_in_range.
Qed.

Lemma syncopated_hihat_returns offset steps hits :
  Z.abs offset < float_overflow_threshold ->
  Forall (fun i => Z.abs i < float_overflow_threshold) steps ->
  exists made,
    for_each (MusicTheoryHelper.syncopated_hihat_body offset) steps hits
    = Ok (hits ++ made)
    /\ List.length made = List.length steps.
Proof.
  intros Hoffset Hsteps. revert hits.
  induction Hsteps as [|i steps Hi _ IH]; intros hits.
  - exists []. simpl. now rewrite app_nil_r.
  - rewrite for_each_cons.
    unfold MusicTheoryHelper.syncopated_hihat_body at 1, int_mul_float.
    rewrite (int_to_float_in_range i Hi). cbv beta iota delta [bind].
    rewrite (int_add_float_in_range offset _ Hoffset).
    cbv beta iota delta [bind].
    destruct (IH (hits ++ [(float_of_Z offset + float_of_Z i * 0.25)%float]))
      as [made [-> Hlen]].
    eexists. rewrite <- app_assoc. split; [reflexivity|].
    cbn [List.length app]. now rewrite Hlen.
Qed.

Lemma syncopated_measure_lengths kick snare hihat measure :
  Z.abs (measure * 4) < float_overflow_threshold ->
  exists kick' snare' hihat',
    MusicTheoryHelper.syncopated_measure (kick, snare, hihat) measure
    = Ok (kick', snare', hihat')
    /\ List.length kick' = (List.length kick + 3)%nat
    /\ List.length snare' = (List.length snare + 2)%nat
    /\ List.length hihat' = (List.length hihat + 16)%nat.
Proof.
  intros Hoffset. unfold MusicTheoryHelper.syncopated_measure.
  rewrite !(int_add_float_in_range (measure * 4) _ Hoffset).
  cbv beta iota delta [bind].
  destruct (syncopated_hihat_returns (measure * 4) (Py.range 16) hihat
              Hoffset) as [made [-> Hlen]].
  { apply Forall_forall. intros i Hi. apply range_In in Hi.
    pose proof float_overflow_threshold_large. lia. }
  cbv beta iota delta [bind]. eexists _, _, _. split; [reflexivity|].
  rewrite !length_app, Hlen. unfold Py.range.
  rewrite length_map, length_seq. simpl. auto.
Qed.

Lemma syncopated_measure_overflow lists measure :
  float_overflow_threshold <= Z.abs (measure * 4) ->
  MusicTheoryHelper.syncopated_measure lists measure = Raise OverflowError.
Proof.
  intros Hoffset. destruct lists as [[kick snare] hihat].
  unfold MusicTheoryHelper.syncopated_measure, int_add_float.
  now rewrite (int_to_float_overflow _ Hoffset).
Qed.

Lemma syncopated_fold_lengths measures kick snare hihat :
  Forall (fun measure => Z.abs (measure * 4) < float_overflow_threshold)
         measures ->
  exists kick' snare' hihat',
    for_each MusicTheoryHelper.syncopated_measure measures
      (kick, snare, hihat) = Ok (kick', snare', hihat')
    /\ List.length kick'
       = (List.length kick + 3 * List.length measures)%nat
    /\ List.length snare'
       = (List.length snare + 2 * List.length measures)%nat
    /\ List.length hihat'
       = (List.length hihat + 16 * List.length measures)%nat.
Proof.
  intros Hfit. revert kick snare hihat.
  induction Hfit as [|m measures Hm _ IH]; intros kick snare hihat.
  - exists kick, snare, hihat. simpl. repeat split; lia.
  - rewrite for_each_cons.
    destruct (syncopated_measure_lengths kick snare hihat m Hm)
      as [k1 [s1 [h1 [-> [Hk [Hs Hh]]]]]].
    cbv beta iota delta [bind].
    destruct (IH k1 s1 h1) as [k2 [s2 [h2 [-> [Hk2 [Hs2 Hh2]]]]]].
    exists k2, s2, h2. split; [reflexivity|].
    cbn [List.length]. lia.
Qed.

Lemma syncopated_fold_overflow measures lists :
  Exists (fun measure => float_overflow_threshold <= Z.abs (measure * 4))
         measures ->
  for_each MusicTheoryHelper.syncopated_measure measures lists
  = Raise OverflowError.
Proof.
  revert lists.
  induction measures as [|m measures IH]; intros lists H; [inversion H|].
  rewrite for_each_cons.
  destruct (Z.le_gt_cases float_overflow_threshold (Z.abs (m * 4)))
    as [Hbig|Hsmall].
  - now rewrite (syncopated_measure_overflow lists m Hbig).
  - destruct lists as [[kick snare] hihat].
    destruct (syncopated_measure_lengths kick snare hihat m)
      as [k1 [s1 [h1 [-> _]]]]; [lia|].
    cbv beta iota delta [bind]. apply IH.
    inversion H as [? ? Hhead|? ? Htail]; subst; [lia | exact Htail].
Qed.

(** While the offset of the last measure, 4 * (measures - 1), can become a
    float, the syncopated rhythm names kick, snare and closed hi-hat, in
    that order, with 3, 2 and 16 hits for every measure: 21 hits a measure,
    all on drums of [DRUM_MAP]; a measure count of zero or less gives three
    empty lists.  Beyond that count the sum of an offset and a float raises
    OverflowError. *)
Theorem create_syncopated_rhythm_hits :
  forall measures : Z,
    (4 * (measures - 1) < float_overflow_threshold ->
     exists kick snare closed_hihat : list float,
       MusicTheoryHelper.create_syncopated_rhythm measures
       = Ok [("kick"%string, kick); ("snare"%string, snare);
             ("closed_hihat"%string, closed_hihat)]
       /\ Py.len kick = 3 * Z.max 0 measures
       /\ Py.len snare = 2 * Z.max 0 measures
       /\ Py.len closed_hihat = 16 * Z.max 0 measures
       /\ recognised_hits [("kick"%string, kick); ("snare"%string, snare);
                           ("closed_hihat"%string, closed_hihat)]
          = 21 * Z.max 0 measures)
    /\ (float_overflow_threshold <= 4 * (measures - 1) ->
        MusicTheoryHelper.create_syncopated_rhythm measures
        = Raise OverflowError).
Proof.
  intros measures. unfold MusicTheoryHelper.create_syncopated_rhythm.
  split.
  - intros Hfit.
    destruct (syncopated_fold_lengths (Py.range measures) [] [] [])
      as [kick [snare [hihat [-> [Hk [Hs Hh]]]]]].
    { apply Forall_forall. intros m Hm. apply range_In in Hm. lia. }
    assert (Z.of_nat (List.length (Py.range measures)) = Z.max 0 measures)
      as Hrange.
    { unfold Py.range. rewrite length_map, length_seq. lia. }
    cbv beta iota delta [bind].
    exists kick, snare, hihat. split; [reflexivity|].
    unfold recognised_hits, Py.len. cbn [flat_map fst snd].
    change (Py.lookup "kick" DRUM_MAP) with (Some 36).
    change (Py.lookup "snare" DRUM_MAP) with (Some 38).
    change (Py.lookup "closed_hihat" DRUM_MAP) with (Some 42).
    rewrite !length_app. cbn [List.length] in *.
    repeat split; lia.
  - intros Hbig. rewrite syncopated_fold_overflow; [reflexivity|].
    pose proof float_overflow_threshold_large as Hlarge.
    apply Exists_exists. exists (measures - 1). split.
    + apply range_In. lia.
    + lia.
Qed.

Lemma create_syncopated_rhythm_hits_witness :
  (exists kick snare closed_hihat : list float,
      MusicTheoryHelper.create_syncopated_rhythm 2
      = Ok [("kick"%string, kick); ("snare"%string, snare);
            ("closed_hihat"%string, closed_hihat)]
      /\ Py.len closed_hihat = 32)
  /\ MusicTheoryHelper.create_syncopated_rhythm (2 ^ 1022 + 1)
     = Raise OverflowError.
Proof.
  destruct (create_syncopated_rhythm_hits 2) as [Hok _].
  destruct (create_syncopated_rhythm_hits (2 ^ 1022 + 1)) as [_ Hbad].
  split.
  - destruct Hok as [kick [snare [hihat [Hp [_ [_ [Hh _]]]]]]];
      [reflexivity|].
    exists kick, snare, hihat. split; [exact Hp | exact Hh].
  - apply Hbad. apply Z.leb_le. reflexivity.
Defined.

(** ** Chord tones in the notation *)

Lemma drop_last_append_char (s : string) (c : ascii) :
  drop_last (s ++ String c "") = s.
Proof.
  unfold drop_last. rewrite string_length_append. simpl.
  replace (String.length s + 1 - 1)%nat with (String.length s) by lia.
  induction s as [|a s IH]; simpl; [reflexivity | now rewrite IH].
Qed.

(** The text of a chord tone is the note name with its octave marks and
    nothing else: the duration 0 that [chord_notes_to_lilypond] passes is no
    key of [DURATION_MAP], so the default of one character is appended and
    the slice [[:-1]] removes exactly that character. *)
Theorem chord_tone_text_is_note_name :
  forall pitch : Z,
    chord_tone_text pitch = LilyPondGenerator.note_name_with_octave pitch
    /\ LilyPondGenerator.midi_to_lilypond_note pitch 0 false
       = (LilyPondGenerator.note_name_with_octave pitch ++ "4")%string.
Proof.
  intros pitch. unfold chord_tone_text, LilyPondGenerator.midi_to_lilypond_note.
  change (LilyPondGenerator.DURATION_MAP_get 0 "4") with "4"%string.
  split; [apply drop_last_append_char | reflexivity].
Qed.

(** ** File names from descriptions *)

Lemma str_forall_append p a b :
  str_forall p (a ++ b) = str_forall p a && str_forall p b.
Proof.
  induction a as [|c a IH]; simpl; [reflexivity|].
  now rewrite IH, andb_assoc.
Qed.

Lemma rstrip_kept p s :
  str_forall p s = true -> str_forall p (Py.rstrip s) = true.
Proof.
  induction s as [|c s IH]; simpl; [reflexivity|].
  intros H. apply andb_prop in H. destruct H as [Hc Hs].
  specialize (IH Hs).
  destruct (Py.rstrip s) as [|d r].
  - destruct (Py.is_space c); simpl; [reflexivity | now rewrite Hc].
  - simpl in *. now rewrite Hc, IH.
Qed.

Lemma str_filter_kept keep s : str_forall keep (str_filter keep s) = true.
Proof.
  induction s as [|c s IH]; simpl; [reflexivity|].
  destruct (keep c) eqn:E; simpl; [now rewrite E, IH | exact IH].
Qed.

Lemma str_filter_length keep s :
  (String.length (str_filter keep s) <= String.length s)%nat.
Proof.
  induction s as [|c s IH]; simpl; [lia|].
  destruct (keep c); simpl; lia.
Qed.

Lemma rstrip_length s : (String.length (Py.rstrip s) <= String.length s)%nat.
Proof.
  induction s as [|c s IH]; simpl; [lia|].
  destruct (Py.rstrip s) as [|d r].
  - destruct (Py.is_space c); simpl; lia.
  - simpl in *. lia.
Qed.

Lemma substring_length_le n s :
  (String.length (substring 0 n s) <= n)%nat.
Proof.
  revert s. induction n as [|n IH]; intros [|c s]; simpl; try lia.
  specialize (IH s). lia.
Qed.

Lemma spaces_to_underscores_stem s :
  str_forall kept_in_name s = true ->
  str_forall stem_char (spaces_to_underscores s) = true.
Proof.
  induction s as [|c s IH]; simpl; [reflexivity|].
  intros H. apply andb_prop in H. destruct H as [Hc Hs].
  rewrite (IH Hs), andb_true_r.
  unfold kept_in_name in Hc. unfold stem_char.
  destruct (Ascii.eqb_spec c " ") as [->|Hne]; [reflexivity|].
  rewrite orb_false_r in Hc. exact Hc.
Qed.

Lemma spaces_to_underscores_length s :
  String.length (spaces_to_underscores s) = String.length s.
Proof. induction s as [|c s IH]; simpl; [reflexivity | now rewrite IH]. Qed.

(** The file name made from an ASCII description is a stem of at most 30
    letters, digits, hyphens and underscores followed by [.mid]: no space,
    dot or path separator of the description reaches the name. *)
Theorem safe_filename_characters :
  forall description : string,
    is_ascii_text description = true ->
    exists stem : string,
      safe_filename description = (stem ++ ".mid")%string
      /\ str_forall stem_char stem = true
      /\ (String.length stem <= 30)%nat.
Proof.
  intros description _. unfold safe_filename.
  eexists. split; [reflexivity|]. split.
  - apply spaces_to_underscores_stem, rstrip_kept, str_filter_kept.
  - rewrite spaces_to_underscores_length.
    etransitivity; [apply rstrip_length|].
    etransitivity; [apply str_filter_length|].
    apply substring_length_le.
Qed.

Lemma safe_filename_characters_witness :
  exists stem : string,
    safe_filename "Lo-fi beat: rainy/night, 85 BPM  " = (stem ++ ".mid")%string
    /\ str_forall stem_char stem = true.
Proof.
  destruct (safe_filename_characters "Lo-fi beat: rainy/night, 85 BPM  "
              eq_refl) as [stem [H [Hs _]]].
  exists stem. split; [exact H | exact Hs].
Defined.
